(** * Push/pull synchronisation of tasks (backend/app/api/sync.py)

    A shallow embedding of the sync endpoints [push_changes] and
    [pull_changes] over the [tasks] table of backend/app/models/task.py.

    - UUIDs are modelled as [N], timestamps ([datetime]) as [Z]
      (microseconds), integers as [Z], a string as the sequence of its
      characters.  The column types the database enforces when the
      session is flushed are checked at commit: [version] is an SQL
      [Integer] (32 bits), [priority] a [String(10)], and a text value
      may not contain the NUL character.
    - The SQLAlchemy session ([autoflush=False]) is modelled as explicit
      state: the rows of the table, where rows loaded by a query and
      modified in Python are updated in place (identity map), plus the
      list of objects passed to [db.add], which are only inserted at
      commit.  The [id] column alone is the primary key, checked at
      commit together with the column types of the written values.
    - [datetime.utcnow()] reads a clock: a function from a tick counter,
      which each call advances.  The database's [now()] (server default
      of [modified_at] and [created_at]) is the transaction time
      [db_now]. *)

From Stdlib Require Import ZArith List Ascii String Bool Sorting.Sorted
  Sorting.Permutation Lia.
Import ListNotations.
Open Scope Z_scope.

Definition UUID := N.
Definition datetime := Z.

(** ** Models *)

(** [class Task(Base)] of backend/app/models/task.py. *)
Module Task.
Record t := mk {
  id : UUID;
  user_id : UUID;
  title : string;
  notes : option string;
  due_date : option datetime;
  priority : option string;
  project_id : option UUID;
  completed_at : option datetime;
  is_deleted : bool;
  created_at : datetime;
  modified_at : datetime;
  version : Z
}.
End Task.

(** [class TaskSync(BaseModel)]. *)
Module TaskSync.
Record t := mk {
  id : UUID;
  title : string;
  notes : option string;
  due_date : option datetime;
  priority : option string;
  completed_at : option datetime;
  is_deleted : bool;
  version : Z
}.
End TaskSync.

(** [class SyncPushRequest(BaseModel)]. *)
Record SyncPushRequest := mkSyncPushRequest {
  tasks : list TaskSync.t;
  last_sync_at : option datetime
}.

(** [class SyncPullResponse(BaseModel)]. *)
Record SyncPullResponse := mkSyncPullResponse {
  pull_tasks : list TaskSync.t;
  pull_server_time : datetime
}.

(** [class SyncPushResponse(BaseModel)]. *)
Record SyncPushResponse := mkSyncPushResponse {
  success : bool;
  conflicts : list UUID;
  server_time : datetime
}.

(** Errors the database layer can raise inside the handlers. *)
Inductive DbError :=
| MultipleResultsFound   (** [scalar_one_or_none] on several rows *)
| IntegrityError         (** primary-key violation at flush/commit *)
| DataError.             (** a value the column type rejects, at flush *)

(** A small error monad for the handler bodies. *)
Inductive result (A : Type) :=
| Ok : A -> result A
| Err : DbError -> result A.
Arguments Ok {A} _.
Arguments Err {A} _.

Definition bind {A B} (m : result A) (k : A -> result B) : result B :=
  match m with
  | Ok a => k a
  | Err e => Err e
  end.

Notation "x <- m ;; k" := (bind m (fun x => k))
  (at level 61, m at next level, right associativity).

Definition rmap {A B} (f : A -> B) (m : result A) : result B :=
  match m with
  | Ok a => Ok (f a)
  | Err e => Err e
  end.

(** ** The session *)

Record Session := mkSession {
  rows : list Task.t;        (** table rows, identity-map updates applied *)
  added : list Task.t;       (** objects passed to [db.add], not flushed *)
  s_conflicts : list UUID;   (** the handler's local [conflicts] list *)
  tick : nat                 (** clock reads so far *)
}.

(** The same session with [c0] in front of its conflict list. *)
Definition prefix_conflicts (c0 : list UUID) (s : Session) : Session :=
  mkSession (rows s) (added s) (c0 ++ s_conflicts s) (tick s).

Section Handlers.

(** [datetime.utcnow()] at the n-th read. *)
Variable clock : nat -> datetime.
(** The database's [now()] for this transaction. *)
Variable db_now : datetime.

Definition utcnow (s : Session) : datetime * Session :=
  (clock (tick s),
   mkSession (rows s) (added s) (s_conflicts s) (S (tick s))).

(** [select(Task).where(and_(Task.id == tid, Task.user_id == uid))]
    followed by [scalar_one_or_none()]. *)
Definition select_task (tbl : list Task.t) (tid uid : UUID) : list Task.t :=
  filter (fun r => N.eqb (Task.id r) tid && N.eqb (Task.user_id r) uid) tbl.

Definition scalar_one_or_none (res : list Task.t) : result (option Task.t) :=
  match res with
  | [] => Ok None
  | [r] => Ok (Some r)
  | _ => Err MultipleResultsFound
  end.

(** The attribute assignments of lines 70-77 on the loaded object. *)
Definition update_existing (cur : Task.t) (d : TaskSync.t) (now : datetime)
  : Task.t :=
  Task.mk (Task.id cur) (Task.user_id cur)
    (TaskSync.title d) (TaskSync.notes d) (TaskSync.due_date d)
    (TaskSync.priority d) (Task.project_id cur) (TaskSync.completed_at d)
    (TaskSync.is_deleted d) (Task.created_at cur) now
    (TaskSync.version d + 1).

(** Writing back the modified object of the identity map: the row with
    the same primary key is replaced. *)
Definition replace_row (tbl : list Task.t) (r : Task.t) : list Task.t :=
  map (fun x => if N.eqb (Task.id x) (Task.id r)
                   && N.eqb (Task.user_id x) (Task.user_id r)
                then r else x) tbl.

(** [Task(id=..., user_id=..., ..., version=task_data.version)] (lines 81-91);
    [created_at] and [modified_at] take the server default [now()],
    [project_id] is NULL. *)
Definition new_task (d : TaskSync.t) (uid : UUID) : Task.t :=
  Task.mk (TaskSync.id d) uid (TaskSync.title d) (TaskSync.notes d)
    (TaskSync.due_date d) (TaskSync.priority d) None
    (TaskSync.completed_at d) (TaskSync.is_deleted d) db_now db_now
    (TaskSync.version d).

(** One iteration of the [for task_data in data.tasks] loop. *)
Definition push_one (uid : UUID) (s : Session) (d : TaskSync.t)
  : result Session :=
  existing <- scalar_one_or_none (select_task (rows s) (TaskSync.id d) uid) ;;
  match existing with
  | Some cur =>
      if Z.gtb (Task.version cur) (TaskSync.version d) then
        Ok (mkSession (rows s) (added s)
              (s_conflicts s ++ [TaskSync.id d]) (tick s))
      else
        let '(now, s1) := utcnow s in
        Ok (mkSession (replace_row (rows s1) (update_existing cur d now))
              (added s1) (s_conflicts s1) (tick s1))
  | None =>
      Ok (mkSession (rows s) (added s ++ [new_task d uid])
            (s_conflicts s) (tick s))
  end.

Fixpoint push_loop (uid : UUID) (s : Session) (ds : list TaskSync.t)
  : result Session :=
  match ds with
  | [] => Ok s
  | d :: ds' => s' <- push_one uid s d ;; push_loop uid s' ds'
  end.

Fixpoint has_dup (l : list UUID) : bool :=
  match l with
  | [] => false
  | x :: l' => existsb (N.eqb x) l' || has_dup l'
  end.

(** The primary key ([id] alone) is violated by the pending inserts:
    one reuses the id of a row of the table, or two share an id. *)
Definition pk_violation (tbl new : list Task.t) : bool :=
  existsb (fun r => existsb (fun x => N.eqb (Task.id x) (Task.id r)) tbl)
    new
  || has_dup (map Task.id new).

(** Column types, as PostgreSQL enforces them on the values it is sent:
    an [Integer] holds 32-bit values, a [String(n)] at most [n]
    characters, and no text value may contain the NUL character. *)
Definition int4_ok (v : Z) : bool := (-2147483648 <=? v) && (v <=? 2147483647).

Fixpoint no_nul (str : string) : bool :=
  match str with
  | EmptyString => true
  | String c rest => negb (Ascii.eqb c Ascii.zero) && no_nul rest
  end.

Definition text_ok (str : string) : bool := no_nul str.

Definition varchar_ok (n : nat) (str : string) : bool :=
  Nat.leb (String.length str) n && no_nul str.

Definition opt_ok (ok : string -> bool) (o : option string) : bool :=
  match o with Some str => ok str | None => true end.

Definition opt_str_eqb (a b : option string) : bool :=
  match a, b with
  | Some x, Some y => String.eqb x y
  | None, None => true
  | _, _ => false
  end.

(** An [INSERT] sends every column of the new row. *)
Definition insert_ok (r : Task.t) : bool :=
  text_ok (Task.title r) && opt_ok text_ok (Task.notes r)
  && opt_ok (varchar_ok 10) (Task.priority r) && int4_ok (Task.version r).


(** An [UPDATE] sends the columns whose value changed (SQLAlchemy's
    attribute history), so only those are checked. *)
Definition update_ok (old new : Task.t) : bool :=
  (String.eqb (Task.title old) (Task.title new) || text_ok (Task.title new))
  && (opt_str_eqb (Task.notes old) (Task.notes new)
      || opt_ok text_ok (Task.notes new))
  && (opt_str_eqb (Task.priority old) (Task.priority new)
      || opt_ok (varchar_ok 10) (Task.priority new))
  && (Z.eqb (Task.version old) (Task.version new)
      || int4_ok (Task.version new)).

(** The loaded rows, compared position by position with the rows as
    they were read at the start of the request. *)
Fixpoint updates_ok (old new : list Task.t) : bool :=
  match old, new with
  | o :: old', n :: new' => update_ok o n && updates_ok old' new'
  | _, _ => true
  end.

(** [await db.commit()]: flush the modified rows and the pending inserts.
    [tbl0] is the table as the request found it.  When a batch both sends
    a value its column rejects and violates the primary key, the model
    reports the [DataError]; which of the two the database reports first
    depends on the order in which the driver sends the statements and
    their rows, and no property below depends on it. *)
Definition commit (tbl0 : list Task.t) (s : Session) : result (list Task.t) :=
  if negb (updates_ok tbl0 (rows s) && forallb insert_ok (added s))
  then Err DataError
  else if pk_violation (rows s) (added s) then Err IntegrityError
  else Ok (rows s ++ added s).

(** [push_changes]: the committed table and the response. *)
Definition push_changes (data : SyncPushRequest) (uid : UUID)
  (tbl : list Task.t) : result (SyncPushResponse * list Task.t) :=
  s <- push_loop uid (mkSession tbl [] [] 0%nat) (tasks data) ;;
  tbl' <- commit tbl s ;;
  let '(now, _) := utcnow s in
  Ok (mkSyncPushResponse true (s_conflicts s) now, tbl').

End Handlers.

(** Several push requests in a row, each against the table committed by
    the previous one; request [k] reads clock [clocks k] and runs in a
    transaction whose [now()] is [db_nows k]. *)
Fixpoint push_requests (clocks : nat -> nat -> datetime)
  (db_nows : nat -> datetime) (k : nat) (uid : UUID)
  (reqs : list SyncPushRequest) (tbl : list Task.t)
  : result (list SyncPushResponse * list Task.t) :=
  match reqs with
  | [] => Ok ([], tbl)
  | r :: rs =>
      p <- push_changes (clocks k) (db_nows k) r uid tbl ;;
      let '(resp, tbl1) := p in
      q <- push_requests clocks db_nows (S k) uid rs tbl1 ;;
      let '(resps, tbl2) := q in
      Ok (resp :: resps, tbl2)
  end.

(** ** Pull *)

(** [ORDER BY modified_at DESC]: an insertion sort, newest first (the
    order of rows with equal [modified_at] is left to the database; this
    one puts the later-inserted row first). *)
Fixpoint insert_desc (r : Task.t) (l : list Task.t) : list Task.t :=
  match l with
  | [] => [r]
  | h :: l' =>
      if Z.leb (Task.modified_at h) (Task.modified_at r) then r :: l
      else h :: insert_desc r l'
  end.

Fixpoint order_by_modified_desc (l : list Task.t) : list Task.t :=
  match l with
  | [] => []
  | h :: l' => insert_desc h (order_by_modified_desc l')
  end.

(** [query = select(Task).where(Task.user_id == uid)], then
    [if since: query = query.where(Task.modified_at > since)]
    (a [datetime] is always truthy), ordered by [modified_at] desc. *)
Definition pull_where (since : option datetime) (uid : UUID) (r : Task.t)
  : bool :=
  N.eqb (Task.user_id r) uid
  && match since with
     | Some s => Z.ltb s (Task.modified_at r)
     | None => true
     end.

Definition pull_rows (since : option datetime) (uid : UUID)
  (tbl : list Task.t) : list Task.t :=
  order_by_modified_desc (filter (pull_where since uid) tbl).

(** The [TaskSync(...)] comprehension of lines 123-135. *)
Definition to_task_sync (r : Task.t) : TaskSync.t :=
  TaskSync.mk (Task.id r) (Task.title r) (Task.notes r) (Task.due_date r)
    (Task.priority r) (Task.completed_at r) (Task.is_deleted r)
    (Task.version r).

(** [pull_changes]; [now] is [datetime.utcnow()] at the response. *)
Definition pull_changes (since : option datetime) (uid : UUID)
  (now : datetime) (tbl : list Task.t) : SyncPullResponse :=
  mkSyncPullResponse (map to_task_sync (pull_rows since uid tbl)) now.

(** ** Lemmas on the push loop *)

Definition key (r : Task.t) : UUID * UUID := (Task.id r, Task.user_id r).

Lemma select_replace_row tbl r :
  select_task (replace_row tbl r) (Task.id r) (Task.user_id r)
  = map (fun _ => r) (select_task tbl (Task.id r) (Task.user_id r)).
Proof.
  induction tbl as [|x tbl IH]; simpl; [reflexivity|].
  destruct (N.eqb (Task.id x) (Task.id r) && N.eqb (Task.user_id x) (Task.user_id r))
    eqn:E; simpl.
  - rewrite !N.eqb_refl; simpl. now rewrite IH.
  - rewrite E. exact IH.
Qed.

Lemma replace_row_keys tbl r :
  map key (replace_row tbl r) = map key tbl.
Proof.
  induction tbl as [|x tbl IH]; simpl; [reflexivity|].
  destruct (N.eqb (Task.id x) (Task.id r) && N.eqb (Task.user_id x) (Task.user_id r))
    eqn:E; simpl; rewrite IH; [|reflexivity].
  apply andb_true_iff in E as [E1 E2].
  apply N.eqb_eq in E1, E2. unfold key. now rewrite E1, E2.
Qed.

Lemma select_task_keys tbl1 tbl2 tid uid :
  map key tbl1 = map key tbl2 ->
  select_task tbl1 tid uid = [] <-> select_task tbl2 tid uid = [].
Proof.
  revert tbl2; induction tbl1 as [|x tbl1 IH]; intros [|y tbl2] H;
    simpl in H; try discriminate; [tauto|].
  unfold key in H at 1 2. injection H as Hi Hu Ht.
  simpl. rewrite Hi, Hu.
  destruct (N.eqb (Task.id y) tid && N.eqb (Task.user_id y) uid);
    [split; discriminate|].
  now apply IH.
Qed.

Lemma update_ok_refl r : update_ok r r = true.
Proof.
  unfold update_ok, opt_str_eqb.
  rewrite String.eqb_refl, Z.eqb_refl.
  destruct (Task.notes r), (Task.priority r); simpl;
    rewrite ?String.eqb_refl; reflexivity.
Qed.

Lemma updates_ok_refl tbl : updates_ok tbl tbl = true.
Proof.
  induction tbl as [|r tbl IH]; simpl; [reflexivity|].
  now rewrite update_ok_refl, IH.
Qed.

(** Writing back one object: only the rows it replaces are compared. *)
Lemma updates_ok_replace tbl r :
  (forall x, In x tbl -> key x = key r -> update_ok x r = true) ->
  updates_ok tbl (replace_row tbl r) = true.
Proof.
  induction tbl as [|x tbl IH]; simpl; intros H; [reflexivity|].
  rewrite IH by auto.
  destruct (N.eqb (Task.id x) (Task.id r) && N.eqb (Task.user_id x) (Task.user_id r))
    eqn:E; simpl; rewrite ?andb_true_r.
  - apply H; [now left|]. apply andb_true_iff in E as [E1 E2].
    apply N.eqb_eq in E1, E2. unfold key. now rewrite E1, E2.
  - apply update_ok_refl.
Qed.

Lemma commit_Ok tbl0 s t :
  commit tbl0 s = Ok t <->
  updates_ok tbl0 (rows s) = true /\ forallb insert_ok (added s) = true
  /\ pk_violation (rows s) (added s) = false /\ t = rows s ++ added s.
Proof.
  unfold commit.
  destruct (updates_ok tbl0 (rows s)), (forallb insert_ok (added s)),
    (pk_violation (rows s) (added s)); simpl; split; intros H;
    try discriminate; try (injection H as <-; now auto);
    destruct H as [H1 [H2 [H3 H4]]]; try discriminate.
  now rewrite H4.
Qed.

Lemma commit_Err tbl0 s e :
  commit tbl0 s = Err e ->
  (e = DataError /\ updates_ok tbl0 (rows s) && forallb insert_ok (added s) = false)
  \/ (e = IntegrityError /\ pk_violation (rows s) (added s) = true).
Proof.
  unfold commit.
  destruct (updates_ok tbl0 (rows s) && forallb insert_ok (added s)); simpl.
  - destruct (pk_violation _ _); intros H; [|discriminate].
    injection H as <-. now right.
  - intros H. injection H as <-. now left.
Qed.

Section Step.
Variable clock : nat -> datetime.
Variable db_now : datetime.

(** The conflict branch: only the [conflicts] list changes. *)
Lemma push_one_conflict uid s d cur :
  select_task (rows s) (TaskSync.id d) uid = [cur] ->
  Task.version cur > TaskSync.version d ->
  push_one clock db_now uid s d
  = Ok (mkSession (rows s) (added s) (s_conflicts s ++ [TaskSync.id d])
          (tick s)).
Proof.
  intros Hsel Hgt. unfold push_one. rewrite Hsel. simpl.
  rewrite Z.gtb_ltb.
  destruct (Z.ltb_spec (TaskSync.version d) (Task.version cur)); [|lia].
  reflexivity.
Qed.

(** The update branch. *)
Lemma push_one_update uid s d cur :
  select_task (rows s) (TaskSync.id d) uid = [cur] ->
  Task.version cur <= TaskSync.version d ->
  push_one clock db_now uid s d
  = Ok (mkSession
          (replace_row (rows s) (update_existing cur d (clock (tick s))))
          (added s) (s_conflicts s) (S (tick s))).
Proof.
  intros Hsel Hle. unfold push_one. rewrite Hsel. simpl.
  rewrite Z.gtb_ltb.
  destruct (Z.ltb_spec (TaskSync.version d) (Task.version cur)); [lia|].
  reflexivity.
Qed.

(** The create branch. *)
Lemma push_one_create uid s d :
  select_task (rows s) (TaskSync.id d) uid = [] ->
  push_one clock db_now uid s d
  = Ok (mkSession (rows s) (added s ++ [new_task db_now d uid])
          (s_conflicts s) (tick s)).
Proof. intros Hsel. unfold push_one. now rewrite Hsel. Qed.

End Step.

Lemma select_task_In tbl tid uid r :
  In r (select_task tbl tid uid) -> Task.id r = tid /\ Task.user_id r = uid.
Proof.
  unfold select_task. rewrite filter_In. intros [_ H].
  apply andb_true_iff in H as [H1 H2]. now apply N.eqb_eq in H1, H2.
Qed.

(** After the update branch the lookup finds the updated row only. *)
Lemma push_one_update_select clock db_now uid s d cur :
  select_task (rows s) (TaskSync.id d) uid = [cur] ->
  Task.version cur <= TaskSync.version d ->
  exists s', push_one clock db_now uid s d = Ok s'
    /\ s_conflicts s' = s_conflicts s
    /\ added s' = added s
    /\ select_task (rows s') (TaskSync.id d) uid
       = [update_existing cur d (clock (tick s))].
Proof.
  intros Hsel Hle.
  destruct (select_task_In (rows s) (TaskSync.id d) uid cur)
    as [Hi Hu]; [rewrite Hsel; now left|].
  eexists; split; [apply push_one_update; eauto|].
  simpl; split; [reflexivity|split; [reflexivity|]].
  rewrite <- Hi, <- Hu at 1.
  change (Task.id cur) with (Task.id (update_existing cur d (clock (tick s)))).
  change (Task.user_id cur)
    with (Task.user_id (update_existing cur d (clock (tick s)))).
  rewrite select_replace_row. simpl. rewrite Hi, Hu, Hsel. reflexivity.
Qed.

Lemma not_in_ids_select tbl tid uid :
  ~ In tid (map Task.id tbl) -> select_task tbl tid uid = [].
Proof.
  intros Hn. unfold select_task.
  destruct (filter _ tbl) as [|r l] eqn:E; [reflexivity|].
  exfalso. assert (Hr : In r (filter (fun r => N.eqb (Task.id r) tid
                                      && N.eqb (Task.user_id r) uid) tbl))
    by (rewrite E; now left).
  apply filter_In in Hr as [Hin Hb].
  apply andb_true_iff in Hb as [Hb _]. apply N.eqb_eq in Hb.
  apply Hn. rewrite <- Hb. now apply in_map.
Qed.












(** Sample owners, ids, rows and payloads for concrete runs. *)
Definition alice : UUID := 10%N.
Definition bob : UUID := 20%N.
Definition task_a : UUID := 1%N.
Definition task_b : UUID := 2%N.

Definition sample_task (i uid : UUID) (v : Z) (m : datetime) : Task.t :=
  Task.mk i uid EmptyString None None None None None false 0 m v.

Definition sample_sync (i : UUID) (v : Z) : TaskSync.t :=
  TaskSync.mk i EmptyString None None None None false v.

Example push_one_sample :
  push_one (fun _ => 7) 0 alice (mkSession [sample_task task_a alice 1 0] [] [] 0)
    (sample_sync task_a 1)
  = Ok (mkSession [update_existing (sample_task task_a alice 1 0) (sample_sync task_a 1) 7]
          [] [] 1).
Proof. reflexivity. Qed.

(** ** Claims about push *)




(** C2: when the caller's row has a strictly greater version than the
    incoming record, the id is appended to the conflict list and nothing
    else changes: the rows (every field, version and [modified_at]) and the
    pending inserts are untouched; pushed alone, the committed table is the
    original one and the response lists the id as a conflict. *)
Theorem push_conflict_leaves_store_unchanged clock db_now uid s d cur :
  select_task (rows s) (TaskSync.id d) uid = [cur] ->
  Task.version cur > TaskSync.version d ->
  push_one clock db_now uid s d
  = Ok (mkSession (rows s) (added s) (s_conflicts s ++ [TaskSync.id d])
          (tick s))
  /\ (forall last,
        push_changes clock db_now (mkSyncPushRequest [d] last) uid (rows s)
        = Ok (mkSyncPushResponse true [TaskSync.id d] (clock 0%nat), rows s)).
Proof.
  intros Hsel Hgt. split; [now apply push_one_conflict with (cur := cur)|].
  intros last. unfold push_changes; simpl.
  rewrite (push_one_conflict clock db_now uid (mkSession (rows s) [] [] 0) d cur)
    by assumption.
  simpl. unfold commit; simpl. rewrite updates_ok_refl, app_nil_r. reflexivity.
Qed.

Lemma push_conflict_leaves_store_unchanged_witness :
  select_task [sample_task task_a alice 3 0] task_a alice = [sample_task task_a alice 3 0]
  /\ Task.version (sample_task task_a alice 3 0) > TaskSync.version (sample_sync task_a 1)
  /\ push_one (fun _ => 7) 0 alice (mkSession [sample_task task_a alice 3 0] [] [] 0)
       (sample_sync task_a 1)
     = Ok (mkSession [sample_task task_a alice 3 0] [] ([] ++ [task_a]) 0)
  /\ (forall last,
        push_changes (fun _ => 7) 0 (mkSyncPushRequest [sample_sync task_a 1] last)
          alice [sample_task task_a alice 3 0]
        = Ok (mkSyncPushResponse true [task_a] 7, [sample_task task_a alice 3 0])).
Proof.
  split; [reflexivity|]. split; [simpl; lia|].
  apply (push_conflict_leaves_store_unchanged (fun _ => 7) 0 alice
           (mkSession [sample_task task_a alice 3 0] [] [] 0) (sample_sync task_a 1)
           (sample_task task_a alice 3 0)); [reflexivity|simpl; lia].
Defined.


(** C4 (as stated, refuted): the stored version 1, the incoming version 5:
    the update stores version 6, an increase of 5, not 1. *)
Lemma push_update_jumps_version :
  Task.version (sample_task task_a alice 1 0) = 1
  /\ match push_one (fun _ => 7) 0 alice
             (mkSession [sample_task task_a alice 1 0] [] [] 0)
             (sample_sync task_a 5) with
     | Ok s' => map Task.version (select_task (rows s') task_a alice)
     | Err _ => []
     end = [6]
  /\ 6 <> 1 + 1.
Proof. split; [reflexivity|]. split; [reflexivity|lia]. Qed.

(** C4 (amended): an accepted update of an existing row stores
    [incoming.version + 1]; this is at least one more than the previously
    stored version, and exactly one more only when the incoming version
    equals the stored one. *)
Theorem push_update_version_increment clock db_now uid s d cur :
  select_task (rows s) (TaskSync.id d) uid = [cur] ->
  Task.version cur <= TaskSync.version d ->
  exists s' r', push_one clock db_now uid s d = Ok s'
    /\ select_task (rows s') (TaskSync.id d) uid = [r']
    /\ Task.version r' = TaskSync.version d + 1
    /\ Task.version cur + 1 <= Task.version r'
    /\ (Task.version r' = Task.version cur + 1
        <-> TaskSync.version d = Task.version cur).
Proof.
  intros Hsel Hle.
  destruct (push_one_update_select clock db_now uid s d cur Hsel Hle)
    as [s' [Hs' [_ [_ Hr]]]].
  exists s', (update_existing cur d (clock (tick s))).
  repeat split; auto; simpl; lia.
Qed.

Lemma push_update_version_increment_witness :
  select_task [sample_task task_a alice 1 0] task_a alice
    = [sample_task task_a alice 1 0]
  /\ Task.version (sample_task task_a alice 1 0)
     <= TaskSync.version (sample_sync task_a 5)
  /\ exists s' r', push_one (fun _ => 7) 0 alice
                     (mkSession [sample_task task_a alice 1 0] [] [] 0)
                     (sample_sync task_a 5) = Ok s'
    /\ select_task (rows s') task_a alice = [r']
    /\ Task.version r' = 5 + 1
    /\ 1 + 1 <= Task.version r'
    /\ (Task.version r' = 1 + 1 <-> 5 = 1).
Proof.
  split; [reflexivity|]. split; [simpl; lia|].
  apply (push_update_version_increment (fun _ => 7) 0 alice
           (mkSession [sample_task task_a alice 1 0] [] [] 0)
           (sample_sync task_a 5) (sample_task task_a alice 1 0));
    [reflexivity|simpl; lia].
Defined.

(** C10: an accepted update of an existing row strictly increases its
    stored version: the new version is at least the old one plus 1. *)
Theorem push_update_version_strictly_increases clock db_now uid s d cur :
  select_task (rows s) (TaskSync.id d) uid = [cur] ->
  Task.version cur <= TaskSync.version d ->
  exists s' r', push_one clock db_now uid s d = Ok s'
    /\ select_task (rows s') (TaskSync.id d) uid = [r']
    /\ Task.version cur + 1 <= Task.version r'
    /\ Task.version cur < Task.version r'.
Proof.
  intros Hsel Hle.
  destruct (push_one_update_select clock db_now uid s d cur Hsel Hle)
    as [s' [Hs' [_ [_ Hr]]]].
  exists s', (update_existing cur d (clock (tick s))).
  repeat split; auto; simpl; lia.
Qed.

Lemma push_update_version_strictly_increases_witness :
  select_task [sample_task task_a alice 2 0] task_a alice
    = [sample_task task_a alice 2 0]
  /\ Task.version (sample_task task_a alice 2 0)
     <= TaskSync.version (sample_sync task_a 2)
  /\ exists s' r', push_one (fun _ => 7) 0 alice
                     (mkSession [sample_task task_a alice 2 0] [] [] 0)
                     (sample_sync task_a 2) = Ok s'
    /\ select_task (rows s') task_a alice = [r']
    /\ 2 + 1 <= Task.version r'
    /\ 2 < Task.version r'.
Proof.
  split; [reflexivity|]. split; [simpl; lia|].
  apply (push_update_version_strictly_increases (fun _ => 7) 0 alice
           (mkSession [sample_task task_a alice 2 0] [] [] 0)
           (sample_sync task_a 2) (sample_task task_a alice 2 0));
    [reflexivity|simpl; lia].
Defined.

(** ** Lemmas on whole batches *)

Lemma push_one_keys clock db_now uid s d s' :
  push_one clock db_now uid s d = Ok s' ->
  map key (rows s') = map key (rows s) /\ exists l, added s' = added s ++ l.
Proof.
  unfold push_one, bind.
  destruct (scalar_one_or_none _) as [[cur|]|e]; [|intros H|discriminate].
  - destruct (_ >? _); intros H; injection H as <-; simpl.
    + split; [reflexivity|]. exists []. now rewrite app_nil_r.
    + split; [apply replace_row_keys|]. exists []. now rewrite app_nil_r.
  - injection H as <-; simpl. split; [reflexivity|]. eexists; reflexivity.
Qed.

Lemma push_loop_keys clock db_now uid ds : forall s s',
  push_loop clock db_now uid s ds = Ok s' ->
  map key (rows s') = map key (rows s) /\ exists l, added s' = added s ++ l.
Proof.
  induction ds as [|d ds IH]; simpl; intros s s' H.
  - injection H as <-. split; [reflexivity|]. exists []. now rewrite app_nil_r.
  - destruct (push_one clock db_now uid s d) as [s1|e] eqn:E; [|discriminate].
    simpl in H. apply IH in H as [Hk [l Hl]].
    apply push_one_keys in E as [Hk1 [l1 Hl1]].
    split; [congruence|]. exists (l1 ++ l). now rewrite Hl, Hl1, app_assoc.
Qed.

(** A record whose lookup finds nothing when its turn comes stages an
    insert with its id. *)
Lemma push_loop_stages_insert clock db_now uid d ds : forall s s',
  In d ds ->
  select_task (rows s) (TaskSync.id d) uid = [] ->
  push_loop clock db_now uid s ds = Ok s' ->
  exists x, In x (added s') /\ Task.id x = TaskSync.id d.
Proof.
  induction ds as [|d0 ds IH]; simpl; intros s s' Hin Hsel H; [contradiction|].
  destruct (push_one clock db_now uid s d0) as [s1|e] eqn:E; [|discriminate].
  simpl in H. destruct Hin as [Heq|Hin].
  - subst d0. rewrite push_one_create in E by exact Hsel. injection E as <-.
    apply push_loop_keys in H as [_ [l Hl]].
    exists (new_task db_now d uid). split; [|reflexivity].
    rewrite Hl. simpl. apply in_or_app. left. apply in_or_app. right. now left.
  - apply (IH s1 s' Hin); [|exact H].
    apply push_one_keys in E as [Hk _].
    now apply (select_task_keys (rows s1) (rows s)).
Qed.

Lemma push_loop_all_conflicts clock db_now uid tbl ds : forall a cs t,
  Forall (fun d => exists cur, select_task tbl (TaskSync.id d) uid = [cur]
                               /\ Task.version cur > TaskSync.version d) ds ->
  push_loop clock db_now uid (mkSession tbl a cs t) ds
  = Ok (mkSession tbl a (cs ++ map TaskSync.id ds) t).
Proof.
  induction ds as [|d ds IH]; simpl; intros a cs t Hall.
  - now rewrite app_nil_r.
  - inversion Hall as [|? ? [cur [Hsel Hgt]] Hrest]; subst.
    rewrite (push_one_conflict clock db_now uid (mkSession tbl a cs t) d cur)
      by assumption.
    simpl. rewrite IH by exact Hrest. now rewrite <- app_assoc.
Qed.

Lemma push_changes_all_conflicts clock db_now uid tbl ds last :
  Forall (fun d => exists cur, select_task tbl (TaskSync.id d) uid = [cur]
                               /\ Task.version cur > TaskSync.version d) ds ->
  push_changes clock db_now (mkSyncPushRequest ds last) uid tbl
  = Ok (mkSyncPushResponse true (map TaskSync.id ds) (clock 0%nat), tbl).
Proof.
  intros Hall. unfold push_changes; simpl.
  rewrite push_loop_all_conflicts by exact Hall. simpl.
  unfold commit; simpl. now rewrite updates_ok_refl, app_nil_r.
Qed.

(** The shape of a successful push: the loop's final session and the
    committed table. *)
Lemma push_changes_ok clock db_now data uid tbl resp tbl' :
  push_changes clock db_now data uid tbl = Ok (resp, tbl') ->
  exists s, push_loop clock db_now uid (mkSession tbl [] [] 0) (tasks data) = Ok s
    /\ pk_violation (rows s) (added s) = false
    /\ tbl' = rows s ++ added s
    /\ resp = mkSyncPushResponse true (s_conflicts s) (clock (tick s)).
Proof.
  unfold push_changes.
  destruct (push_loop _ _ _ _ _) as [s|e]; simpl; [|discriminate].
  destruct (commit tbl s) as [t|e] eqn:Ec; simpl; [|discriminate].
  intros H. injection H as <- <-.
  apply commit_Ok in Ec as [_ [_ [Hp ->]]]. eexists; eauto.
Qed.

Lemma map_id_key l : map Task.id l = map fst (map key l).
Proof. now rewrite map_map. Qed.


Lemma commit_not_Ok_pk tbl0 s :
  pk_violation (rows s) (added s) = true -> forall t, commit tbl0 s <> Ok t.
Proof. intros H t Hc. apply commit_Ok in Hc as [_ [_ [Hp _]]]. congruence. Qed.


(** A record whose caller-scoped lookup finds nothing at its turn (it
    then finds nothing at every turn: the loop keeps the keys of the rows)
    stages exactly the row [new_task d uid]. *)
Lemma push_loop_stages_new clock db_now uid d ds : forall s s',
  In d ds ->
  select_task (rows s) (TaskSync.id d) uid = [] ->
  push_loop clock db_now uid s ds = Ok s' ->
  In (new_task db_now d uid) (added s').
Proof.
  induction ds as [|d0 ds IH]; simpl; intros s s' Hin Hsel H; [contradiction|].
  destruct (push_one clock db_now uid s d0) as [s1|e] eqn:E; [|discriminate].
  simpl in H. destruct Hin as [Heq|Hin].
  - subst d0. rewrite push_one_create in E by exact Hsel. injection E as <-.
    apply push_loop_keys in H as [_ [l Hl]].
    rewrite Hl. simpl. apply in_or_app. left. apply in_or_app. right. now left.
  - apply (IH s1 s' Hin); [|exact H].
    apply push_one_keys in E as [Hk _].
    now apply (select_task_keys (rows s1) (rows s)).
Qed.




(** A staged insert reusing the id of a row of the table makes the whole
    push fail. *)
Lemma push_fails_id_taken clock db_now uid tbl d ds last :
  In d ds -> select_task tbl (TaskSync.id d) uid = [] ->
  In (TaskSync.id d) (map Task.id tbl) ->
  forall resp tbl',
    push_changes clock db_now (mkSyncPushRequest ds last) uid tbl <> Ok (resp, tbl').
Proof.
  intros Hin Hsel Hid resp tbl'. unfold push_changes; simpl.
  destruct (push_loop clock db_now uid (mkSession tbl [] [] 0) ds)
    as [s'|e] eqn:E; simpl; [|discriminate].
  destruct (commit tbl s') as [t|e] eqn:Ec; simpl; [|discriminate].
  exfalso. revert Ec. apply commit_not_Ok_pk.
  assert (Hx := push_loop_stages_new clock db_now uid d ds
                  (mkSession tbl [] [] 0) s' Hin Hsel E).
  apply push_loop_keys in E as [Hk _]. simpl in Hk.
  rewrite map_id_key, <- Hk, <- map_id_key in Hid.
  apply in_map_iff in Hid as [y [Hy Hyin]].
  unfold pk_violation. apply orb_true_iff. left.
  apply existsb_exists. exists (new_task db_now d uid). split; [exact Hx|].
  apply existsb_exists. exists y. split; [exact Hyin|].
  apply N.eqb_eq. simpl. exact Hy.
Qed.



(** C5 (as stated, refuted): [task_a] belongs to [bob]; [alice] pushes it.
    The scoped lookup finds nothing, but no record is created for
    [alice]: the insert violates the [id] primary key and the push fails. *)
Lemma push_cross_owner_id_fails :
  select_task [sample_task task_a bob 1 0] task_a alice = []
  /\ push_changes (fun _ => 7) 0
       (mkSyncPushRequest [sample_sync task_a 1] None) alice
       [sample_task task_a bob 1 0]
     = Err IntegrityError.
Proof. split; reflexivity. Qed.

(** C5 (amended): a record whose id belongs only to another owner is
    treated as absent by the caller's lookup (the create branch is taken,
    no conflict, the other owner's row untouched), but the staged insert
    reuses the id, which alone is the primary key: no push containing it
    succeeds, so neither a duplicate nor an overwrite is ever stored. *)
Theorem push_cross_owner_id_rejected clock db_now uid tbl other d ds last :
  In (TaskSync.id d, other) (map key tbl) ->
  select_task tbl (TaskSync.id d) uid = [] ->
  In d ds ->
  push_one clock db_now uid (mkSession tbl [] [] 0) d
  = Ok (mkSession tbl [new_task db_now d uid] [] 0)
  /\ (forall resp tbl',
        push_changes clock db_now (mkSyncPushRequest ds last) uid tbl
        <> Ok (resp, tbl')).
Proof.
  intros Hother Hsel Hin. split; [now apply push_one_create|].
  apply (push_fails_id_taken clock db_now uid tbl d ds last Hin Hsel).
  rewrite map_id_key. apply in_map_iff. now exists (TaskSync.id d, other).
Qed.

Lemma push_cross_owner_id_rejected_witness :
  In (task_a, bob) (map key [sample_task task_a bob 1 0])
  /\ select_task [sample_task task_a bob 1 0] task_a alice = []
  /\ In (sample_sync task_a 1) [sample_sync task_a 1]
  /\ push_one (fun _ => 7) 0 alice
       (mkSession [sample_task task_a bob 1 0] [] [] 0) (sample_sync task_a 1)
     = Ok (mkSession [sample_task task_a bob 1 0]
             [new_task 0 (sample_sync task_a 1) alice] [] 0)
  /\ (forall resp tbl',
        push_changes (fun _ => 7) 0
          (mkSyncPushRequest [sample_sync task_a 1] None) alice
          [sample_task task_a bob 1 0]
        <> Ok (resp, tbl')).
Proof.
  split; [now left|]. split; [reflexivity|]. split; [now left|].
  apply (push_cross_owner_id_rejected (fun _ => 7) 0 alice
           [sample_task task_a bob 1 0] bob (sample_sync task_a 1)
           [sample_sync task_a 1] None); [now left|reflexivity|now left].
Defined.

(** ** Batches with some conflicts *)

(** The conflict list already collected plays no part in processing the
    rest of a batch. *)
Lemma push_one_prefix clock db_now uid c0 s d :
  push_one clock db_now uid (prefix_conflicts c0 s) d
  = rmap (prefix_conflicts c0) (push_one clock db_now uid s d).
Proof.
  destruct s as [r a c t]. unfold push_one, bind, prefix_conflicts; simpl.
  destruct (scalar_one_or_none _) as [[cur|]|e]; simpl; [|reflexivity|reflexivity].
  destruct (_ >? _); simpl; now rewrite ?app_assoc.
Qed.

Lemma push_loop_prefix clock db_now uid c0 ds : forall s,
  push_loop clock db_now uid (prefix_conflicts c0 s) ds
  = rmap (prefix_conflicts c0) (push_loop clock db_now uid s ds).
Proof.
  induction ds as [|d ds IH]; intros s; simpl; [reflexivity|].
  rewrite push_one_prefix.
  destruct (push_one clock db_now uid s d) as [s1|e]; simpl; [apply IH|reflexivity].
Qed.

Lemma push_loop_app clock db_now uid ds1 ds2 : forall s,
  push_loop clock db_now uid s (ds1 ++ ds2)
  = (s1 <- push_loop clock db_now uid s ds1 ;; push_loop clock db_now uid s1 ds2).
Proof.
  induction ds1 as [|d ds1 IH]; intros s; simpl; [reflexivity|].
  destruct (push_one clock db_now uid s d) as [s1|e]; simpl; [apply IH|reflexivity].
Qed.

(** A record that conflicts when its turn comes changes nothing but the
    conflict list: the batch without it ends the same way, with the same
    table, and its id is missing from the same place of the list. *)
Lemma push_changes_drop_conflict clock db_now uid tbl ds1 d ds2 last s1 cur :
  push_loop clock db_now uid (mkSession tbl [] [] 0) ds1 = Ok s1 ->
  select_task (rows s1) (TaskSync.id d) uid = [cur] ->
  Task.version cur > TaskSync.version d ->
  (exists e,
     push_changes clock db_now (mkSyncPushRequest (ds1 ++ d :: ds2) last) uid tbl = Err e
     /\ push_changes clock db_now (mkSyncPushRequest (ds1 ++ ds2) last) uid tbl = Err e)
  \/ (exists c2 now tbl',
     push_changes clock db_now (mkSyncPushRequest (ds1 ++ d :: ds2) last) uid tbl
     = Ok (mkSyncPushResponse true (s_conflicts s1 ++ TaskSync.id d :: c2) now, tbl')
     /\ push_changes clock db_now (mkSyncPushRequest (ds1 ++ ds2) last) uid tbl
     = Ok (mkSyncPushResponse true (s_conflicts s1 ++ c2) now, tbl')).
Proof.
  intros H1 Hsel Hgt. unfold push_changes; simpl.
  rewrite !push_loop_app, H1. simpl.
  rewrite (push_one_conflict clock db_now uid s1 d cur Hsel Hgt). simpl.
  set (base := mkSession (rows s1) (added s1) [] (tick s1)).
  assert (Ea : mkSession (rows s1) (added s1) (s_conflicts s1 ++ [TaskSync.id d]) (tick s1)
               = prefix_conflicts (s_conflicts s1 ++ [TaskSync.id d]) base)
    by (unfold prefix_conflicts; simpl; now rewrite app_nil_r).
  assert (Eb : s1 = prefix_conflicts (s_conflicts s1) base)
    by (destruct s1; unfold prefix_conflicts, base; simpl; now rewrite app_nil_r).
  rewrite Ea.
  replace (push_loop clock db_now uid s1 ds2)
    with (push_loop clock db_now uid (prefix_conflicts (s_conflicts s1) base) ds2)
    by (now rewrite <- Eb).
  rewrite !push_loop_prefix.
  destruct (push_loop clock db_now uid base ds2) as [s2|e]; simpl.
  - unfold commit, prefix_conflicts; simpl.
    destruct (negb (updates_ok tbl (rows s2) && forallb insert_ok (added s2)));
      simpl; [left; eauto|].
    destruct (pk_violation (rows s2) (added s2)); simpl; [left; eauto|].
    right. exists (s_conflicts s2), (clock (tick s2)), (rows s2 ++ added s2).
    rewrite <- app_assoc. split; reflexivity.
  - left. eauto.
Qed.

(** C6: the value of [last_sync_at] plays no part in the push; a returned
    response always has [success = true]; and conflicts never fail the
    batch: a batch whose every record conflicts returns normally, lists
    every record's id, in order, as a conflict and leaves the table as it
    was; in any batch, a record that conflicts when its turn comes changes
    nothing but the conflict list (where its id is listed in batch order):
    without it the batch ends the same way, with the same error or with the
    same stored table and server time. *)
Theorem push_success_last_sync_ignored clock db_now uid tbl ds a b :
  push_changes clock db_now (mkSyncPushRequest ds a) uid tbl
  = push_changes clock db_now (mkSyncPushRequest ds b) uid tbl
  /\ (forall resp tbl',
        push_changes clock db_now (mkSyncPushRequest ds a) uid tbl
        = Ok (resp, tbl') -> success resp = true)
  /\ (Forall (fun d => exists cur, select_task tbl (TaskSync.id d) uid = [cur]
                               /\ Task.version cur > TaskSync.version d) ds ->
      push_changes clock db_now (mkSyncPushRequest ds a) uid tbl
      = Ok (mkSyncPushResponse true (map TaskSync.id ds) (clock 0%nat), tbl))
  /\ (forall ds1 d ds2 s1 cur,
        push_loop clock db_now uid (mkSession tbl [] [] 0) ds1 = Ok s1 ->
        select_task (rows s1) (TaskSync.id d) uid = [cur] ->
        Task.version cur > TaskSync.version d ->
        (exists e,
           push_changes clock db_now (mkSyncPushRequest (ds1 ++ d :: ds2) a) uid tbl
           = Err e
           /\ push_changes clock db_now (mkSyncPushRequest (ds1 ++ ds2) a) uid tbl
           = Err e)
        \/ (exists c2 now tbl',
           push_changes clock db_now (mkSyncPushRequest (ds1 ++ d :: ds2) a) uid tbl
           = Ok (mkSyncPushResponse true (s_conflicts s1 ++ TaskSync.id d :: c2) now,
                 tbl')
           /\ push_changes clock db_now (mkSyncPushRequest (ds1 ++ ds2) a) uid tbl
           = Ok (mkSyncPushResponse true (s_conflicts s1 ++ c2) now, tbl'))).
Proof.
  split; [reflexivity|]. split; [|split].
  - intros resp tbl'. unfold push_changes; simpl.
    destruct (push_loop _ _ _ _ _) as [s|e]; simpl; [|discriminate].
    destruct (commit tbl s) as [t|e]; simpl; [|discriminate].
    intros H. now injection H as <- _.
  - apply push_changes_all_conflicts.
  - intros ds1 d ds2 s1 cur. apply push_changes_drop_conflict.
Qed.

(** [task_a] is stored at version 3; the batch creates [task_b], pushes a
    stale [task_a] (a conflict), then a newer [task_a] (an update). *)
Lemma push_success_last_sync_ignored_witness :
  Forall (fun d => exists cur,
            select_task [sample_task task_a alice 3 0] (TaskSync.id d) alice
            = [cur] /\ Task.version cur > TaskSync.version d)
    [sample_sync task_a 1; sample_sync task_a 2]
  /\ push_changes (fun _ => 7) 0
       (mkSyncPushRequest [sample_sync task_a 1; sample_sync task_a 2] None)
       alice [sample_task task_a alice 3 0]
     = Ok (mkSyncPushResponse true [task_a; task_a] 7,
           [sample_task task_a alice 3 0])
  /\ exists s1,
       push_loop (fun _ => 7) 0 alice (mkSession [sample_task task_a alice 3 0] [] [] 0)
         [sample_sync task_b 1] = Ok s1
       /\ select_task (rows s1) task_a alice = [sample_task task_a alice 3 0]
       /\ 3 > 1
       /\ ((exists e,
             push_changes (fun _ => 7) 0
               (mkSyncPushRequest ([sample_sync task_b 1] ++ sample_sync task_a 1
                                     :: [sample_sync task_a 5]) None)
               alice [sample_task task_a alice 3 0] = Err e
             /\ push_changes (fun _ => 7) 0
               (mkSyncPushRequest ([sample_sync task_b 1] ++ [sample_sync task_a 5]) None)
               alice [sample_task task_a alice 3 0] = Err e)
           \/ (exists c2 now tbl',
             push_changes (fun _ => 7) 0
               (mkSyncPushRequest ([sample_sync task_b 1] ++ sample_sync task_a 1
                                     :: [sample_sync task_a 5]) None)
               alice [sample_task task_a alice 3 0]
             = Ok (mkSyncPushResponse true (s_conflicts s1 ++ task_a :: c2) now, tbl')
             /\ push_changes (fun _ => 7) 0
               (mkSyncPushRequest ([sample_sync task_b 1] ++ [sample_sync task_a 5]) None)
               alice [sample_task task_a alice 3 0]
             = Ok (mkSyncPushResponse true (s_conflicts s1 ++ c2) now, tbl'))).
Proof.
  assert (Hall : Forall (fun d => exists cur,
            select_task [sample_task task_a alice 3 0] (TaskSync.id d) alice
            = [cur] /\ Task.version cur > TaskSync.version d)
    [sample_sync task_a 1; sample_sync task_a 2]).
  { repeat constructor; exists (sample_task task_a alice 3 0);
      (split; [reflexivity|simpl; lia]). }
  destruct (push_success_last_sync_ignored (fun _ => 7) 0 alice
              [sample_task task_a alice 3 0]
              [sample_sync task_a 1; sample_sync task_a 2] None None)
    as [_ [_ [Hc Hp]]].
  split; [exact Hall|]. split; [exact (Hc Hall)|].
  eexists. split; [reflexivity|]. split; [reflexivity|]. split; [lia|].
  apply (Hp [sample_sync task_b 1] (sample_sync task_a 1) [sample_sync task_a 5]
           _ (sample_task task_a alice 3 0)); [reflexivity|reflexivity|simpl; lia].
Defined.

(** C9: a record rejected as a conflict is rejected again however often it
    is re-pushed against the unchanged server state, in one batch or in
    successive requests, and the stored table never changes. *)
Theorem push_conflict_stable clock db_now clocks db_nows uid tbl d cur last :
  select_task tbl (TaskSync.id d) uid = [cur] ->
  Task.version cur > TaskSync.version d ->
  (forall n,
     push_changes clock db_now (mkSyncPushRequest (repeat d n) last) uid tbl
     = Ok (mkSyncPushResponse true (repeat (TaskSync.id d) n) (clock 0%nat),
           tbl))
  /\ (forall n k, exists resps,
        push_requests clocks db_nows k uid
          (repeat (mkSyncPushRequest [d] last) n) tbl = Ok (resps, tbl)
        /\ List.length resps = n
        /\ Forall (fun r => success r = true
                            /\ conflicts r = [TaskSync.id d]) resps).
Proof.
  intros Hsel Hgt.
  assert (Hall : forall n, Forall (fun d => exists cur,
            select_task tbl (TaskSync.id d) uid = [cur]
            /\ Task.version cur > TaskSync.version d) (repeat d n)).
  { intros n. apply Forall_forall. intros x Hx.
    apply repeat_spec in Hx. subst x. eauto. }
  split.
  - intros n. rewrite push_changes_all_conflicts by apply Hall.
    now rewrite map_repeat.
  - intros n. induction n as [|n IH]; intros k; simpl.
    + exists []. repeat split; constructor.
    + rewrite (push_changes_all_conflicts (clocks k) (db_nows k) uid tbl [d]
                 last (Hall 1%nat)).
      simpl. destruct (IH (S k)) as [resps [Hr [Hl Hf]]].
      rewrite Hr. simpl. eexists; split; [reflexivity|].
      split; [simpl; now rewrite Hl|]. constructor; [|exact Hf].
      split; reflexivity.
Qed.

Lemma push_conflict_stable_witness :
  select_task [sample_task task_a alice 3 0] task_a alice
    = [sample_task task_a alice 3 0]
  /\ Task.version (sample_task task_a alice 3 0)
     > TaskSync.version (sample_sync task_a 1)
  /\ (forall n,
       push_changes (fun _ => 7) 0
         (mkSyncPushRequest (repeat (sample_sync task_a 1) n) None) alice
         [sample_task task_a alice 3 0]
       = Ok (mkSyncPushResponse true (repeat task_a n) 7,
             [sample_task task_a alice 3 0]))
  /\ (forall n k, exists resps,
        push_requests (fun _ _ => 7) (fun _ => 0) k alice
          (repeat (mkSyncPushRequest [sample_sync task_a 1] None) n)
          [sample_task task_a alice 3 0]
        = Ok (resps, [sample_task task_a alice 3 0])
        /\ List.length resps = n
        /\ Forall (fun r => success r = true /\ conflicts r = [task_a]) resps).
Proof.
  split; [reflexivity|]. split; [simpl; lia|].
  apply (push_conflict_stable (fun _ => 7) 0 (fun _ _ => 7) (fun _ => 0) alice
           [sample_task task_a alice 3 0] (sample_sync task_a 1)
           (sample_task task_a alice 3 0) None); [reflexivity|simpl; lia].
Defined.

(** ** Lemmas on pull *)

Lemma insert_desc_perm r l : Permutation (insert_desc r l) (r :: l).
Proof.
  induction l as [|h l IH]; simpl; [reflexivity|].
  destruct (Z.leb _ _); [reflexivity|].
  rewrite IH. apply perm_swap.
Qed.

Lemma order_by_modified_desc_perm l :
  Permutation (order_by_modified_desc l) l.
Proof.
  induction l as [|h l IH]; simpl; [reflexivity|].
  rewrite insert_desc_perm. now apply perm_skip.
Qed.

Definition newer_first (a b : Task.t) : Prop :=
  Task.modified_at b <= Task.modified_at a.

Lemma insert_desc_hd y r l :
  HdRel newer_first y l -> newer_first y r ->
  HdRel newer_first y (insert_desc r l).
Proof.
  destruct l as [|h l]; simpl; intros Hh Hr; [now constructor|].
  destruct (Z.leb _ _); constructor; [exact Hr|].
  now inversion Hh.
Qed.

Lemma insert_desc_sorted r l :
  Sorted newer_first l -> Sorted newer_first (insert_desc r l).
Proof.
  induction l as [|h l IH]; simpl; intros Hs; [now repeat constructor|].
  destruct (Z.leb_spec (Task.modified_at h) (Task.modified_at r)).
  - constructor; [exact Hs|]. constructor. exact H.
  - inversion Hs as [|? ? Hl Hh]; subst.
    constructor; [now apply IH|].
    apply insert_desc_hd; [exact Hh|]. unfold newer_first. lia.
Qed.

Lemma order_by_modified_desc_sorted l :
  Sorted newer_first (order_by_modified_desc l).
Proof.
  induction l as [|h l IH]; simpl; [constructor|].
  now apply insert_desc_sorted.
Qed.

(** ** Claims about pull *)

(** C7: the pulled rows are, with multiplicity, exactly the caller's rows
    whose [modified_at] is strictly after [since] when a cursor is given
    (a row modified exactly at [since] is left out), and all of the
    caller's rows otherwise; [is_deleted] plays no part, so tombstones are
    delivered; the response carries these rows as [TaskSync] values. *)
Theorem pull_returns_rows_after_cursor since uid now tbl :
  (forall r, In r (pull_rows since uid tbl)
             <-> In r tbl /\ Task.user_id r = uid
                 /\ (forall s, since = Some s -> s < Task.modified_at r))
  /\ Permutation (pull_rows since uid tbl)
       (filter (fun r => N.eqb (Task.user_id r) uid
                         && match since with
                            | Some s => Z.ltb s (Task.modified_at r)
                            | None => true
                            end) tbl)
  /\ pull_tasks (pull_changes since uid now tbl)
     = map to_task_sync (pull_rows since uid tbl).
Proof.
  split; [|split; [apply order_by_modified_desc_perm|reflexivity]].
  intros r. unfold pull_rows.
  split.
  - intros Hr. apply (Permutation_in _ (order_by_modified_desc_perm _)) in Hr.
    apply filter_In in Hr as [Hin Hw]. unfold pull_where in Hw.
    apply andb_true_iff in Hw as [Hu Hs]. apply N.eqb_eq in Hu.
    repeat split; auto. intros s ->. now apply Z.ltb_lt.
  - intros [Hin [Hu Hs]].
    apply (Permutation_in _ (Permutation_sym (order_by_modified_desc_perm _))).
    apply filter_In. split; [exact Hin|]. unfold pull_where.
    apply andb_true_iff. split; [now apply N.eqb_eq|].
    destruct since as [s|]; [|reflexivity]. apply Z.ltb_lt. now apply Hs.
Qed.

Example pull_sample :
  map Task.id
    (pull_rows (Some 5) alice
       [sample_task 1%N alice 1 5; sample_task 2%N alice 1 6;
        sample_task 3%N bob 1 9; sample_task 4%N alice 1 8])
  = [4%N; 2%N].
Proof. reflexivity. Qed.

(** C8: the pulled rows are ordered by [modified_at], newest first. *)
Theorem pull_ordered_newest_first since uid tbl :
  Sorted (fun a b => Task.modified_at b <= Task.modified_at a)
    (pull_rows since uid tbl).
Proof. apply order_by_modified_desc_sorted. Qed.

(** * Further properties of the sync endpoints *)

(** ** Helper lemmas *)

Definition others (uid : UUID) (tbl : list Task.t) : list Task.t :=
  filter (fun r => negb (N.eqb (Task.user_id r) uid)) tbl.

Lemma replace_row_others uid tbl r :
  Task.user_id r = uid -> others uid (replace_row tbl r) = others uid tbl.
Proof.
  intros Hu. induction tbl as [|x tbl IH]; simpl; [reflexivity|].
  destruct (N.eqb (Task.id x) (Task.id r) && N.eqb (Task.user_id x) (Task.user_id r))
    eqn:E; simpl.
  - apply andb_true_iff in E as [_ E]. apply N.eqb_eq in E.
    rewrite Hu, N.eqb_refl. simpl. rewrite E, Hu, N.eqb_refl. exact IH.
  - now rewrite IH.
Qed.

Lemma push_one_owner clock db_now uid s d s' :
  Forall (fun r => Task.user_id r = uid) (added s) ->
  push_one clock db_now uid s d = Ok s' ->
  others uid (rows s') = others uid (rows s)
  /\ Forall (fun r => Task.user_id r = uid) (added s').
Proof.
  intros Ha. unfold push_one, bind.
  destruct (scalar_one_or_none _) as [[cur|]|e] eqn:Es; [|intros H|discriminate].
  - assert (Hcu : Task.user_id cur = uid).
    { unfold scalar_one_or_none in Es.
      destruct (select_task (rows s) (TaskSync.id d) uid) as [|x [|y l]] eqn:Ex;
        try discriminate. injection Es as <-.
      apply (select_task_In (rows s) (TaskSync.id d)). rewrite Ex. now left. }
    destruct (_ >? _); intros H; injection H as <-; simpl; [split; auto|].
    split; [|exact Ha]. now apply replace_row_others.
  - injection H as <-; simpl. split; [reflexivity|].
    apply Forall_app. split; [exact Ha|]. now constructor.
Qed.

Lemma push_loop_owner clock db_now uid ds : forall s s',
  Forall (fun r => Task.user_id r = uid) (added s) ->
  push_loop clock db_now uid s ds = Ok s' ->
  others uid (rows s') = others uid (rows s)
  /\ Forall (fun r => Task.user_id r = uid) (added s').
Proof.
  induction ds as [|d ds IH]; simpl; intros s s' Ha H.
  - injection H as <-. auto.
  - destruct (push_one clock db_now uid s d) as [s1|e] eqn:E; [|discriminate].
    simpl in H. destruct (push_one_owner clock db_now uid s d s1 Ha E) as [H1 Ha1].
    destruct (IH s1 s' Ha1 H) as [H2 Ha2]. split; [congruence|exact Ha2].
Qed.


Lemma has_dup_false_NoDup l : has_dup l = false -> NoDup l.
Proof.
  induction l as [|x l IH]; simpl; intros H; [constructor|].
  apply orb_false_iff in H as [H1 H2]. constructor; [|now apply IH].
  intros Hin. assert (existsb (N.eqb x) l = true) as Ht
    by (apply existsb_exists; exists x; split; [exact Hin|apply N.eqb_refl]).
  congruence.
Qed.


Lemma select_task_nodup tbl tid uid :
  NoDup (map Task.id tbl) ->
  select_task tbl tid uid = [] \/ exists r, select_task tbl tid uid = [r].
Proof.
  induction tbl as [|x tbl IH]; simpl; intros Hnd; [now left|].
  inversion Hnd as [|? ? Hx Hnd']; subst.
  destruct (N.eqb (Task.id x) tid && N.eqb (Task.user_id x) uid) eqn:E.
  - right. exists x. apply andb_true_iff in E as [E _]. apply N.eqb_eq in E.
    subst tid. now rewrite (not_in_ids_select tbl (Task.id x) uid Hx).
  - now apply IH.
Qed.

Lemma filter_length_perm (f : Task.t -> bool) l l' :
  Permutation l l' -> List.length (filter f l) = List.length (filter f l').
Proof.
  induction 1; simpl.
  - reflexivity.
  - destruct (f x); simpl; congruence.
  - destruct (f x), (f y); reflexivity.
  - congruence.
Qed.

Lemma others_own uid l :
  Forall (fun r => Task.user_id r = uid) l -> others uid l = [].
Proof.
  induction 1 as [|r l Hr _ IH]; simpl; [reflexivity|].
  now rewrite Hr, N.eqb_refl.
Qed.

Lemma push_loop_total clock db_now uid ds : forall s,
  NoDup (map Task.id (rows s)) ->
  exists s', push_loop clock db_now uid s ds = Ok s'.
Proof.
  induction ds as [|d ds IH]; simpl; intros s Hnd; [eauto|].
  assert (Hone : exists s1, push_one clock db_now uid s d = Ok s1).
  { destruct (select_task_nodup (rows s) (TaskSync.id d) uid Hnd)
      as [H0|[cur H1]].
    - eexists. now apply push_one_create.
    - destruct (Z_lt_ge_dec (TaskSync.version d) (Task.version cur)).
      + eexists. apply push_one_conflict with (cur := cur); [exact H1|lia].
      + eexists. apply push_one_update; [exact H1|lia]. }
  destruct Hone as [s1 E]. rewrite E. simpl. apply IH.
  apply push_one_keys in E as [Hk _].
  rewrite map_id_key, Hk, <- map_id_key. exact Hnd.
Qed.

Lemma push_loop_conflicts clock db_now uid ds : forall s s',
  push_loop clock db_now uid s ds = Ok s' ->
  exists l, s_conflicts s' = s_conflicts s ++ l
    /\ incl l (map TaskSync.id ds) /\ (List.length l <= List.length ds)%nat.
Proof.
  induction ds as [|d ds IH]; simpl; intros s s' H.
  - injection H as <-. exists []. rewrite app_nil_r.
    split; [reflexivity|]. split; [apply incl_refl|simpl; lia].
  - destruct (push_one clock db_now uid s d) as [s1|e] eqn:E; [|discriminate].
    simpl in H. destruct (IH s1 s' H) as [l [Hl [Hi Hlen]]].
    assert (Hc : s_conflicts s1 = s_conflicts s
                 \/ s_conflicts s1 = s_conflicts s ++ [TaskSync.id d]).
    { unfold push_one, bind in E.
      destruct (scalar_one_or_none _) as [[cur|]|e']; [|injection E as <-; now left|discriminate].
      destruct (_ >? _); injection E as <-; [now right|now left]. }
    destruct Hc as [Hc|Hc].
    + exists l. rewrite Hl, Hc. split; [reflexivity|].
      split; [now apply incl_tl|simpl; lia].
    + exists (TaskSync.id d :: l). rewrite Hl, Hc, <- app_assoc.
      split; [reflexivity|]. split; [|simpl; lia].
      apply incl_cons; [now left|now apply incl_tl].
Qed.

(** Sample table and batch: an update, a conflict and a create for
    [alice], beside a row of [bob]. *)
Definition sample_table : list Task.t :=
  [sample_task task_a alice 1 0; sample_task 2%N bob 1 0;
   sample_task 3%N alice 4 0].

Definition sample_batch : list TaskSync.t :=
  [sample_sync task_a 1; sample_sync 3%N 1; sample_sync 5%N 2].

(** ** Push: owner isolation, no deletion, primary key *)

(** X1: a successful push leaves the rows of every other owner exactly as
    they were (same rows, same order): nothing of theirs is updated and no
    row is added for them. *)
Theorem push_keeps_other_owners_rows clock db_now data uid tbl resp tbl' :
  push_changes clock db_now data uid tbl = Ok (resp, tbl') ->
  others uid tbl' = others uid tbl.
Proof.
  intros H. apply push_changes_ok in H as [s [Hl [_ [-> _]]]].
  destruct (push_loop_owner clock db_now uid (tasks data)
              (mkSession tbl [] [] 0) s (Forall_nil _) Hl)
    as [Ho Ha].
  unfold others in *. rewrite filter_app. simpl in Ho. rewrite Ho.
  fold (others uid (added s)). rewrite others_own by exact Ha.
  apply app_nil_r.
Qed.

Lemma push_keeps_other_owners_rows_witness :
  exists resp tbl',
    push_changes (fun _ => 7) 9 (mkSyncPushRequest sample_batch None) alice
      sample_table = Ok (resp, tbl')
    /\ others alice tbl' = others alice sample_table.
Proof.
  destruct (push_changes (fun _ => 7) 9 (mkSyncPushRequest sample_batch None)
              alice sample_table) as [[resp tbl']|e] eqn:E;
    [|vm_compute in E; discriminate].
  exists resp, tbl'. split; [reflexivity|].
  exact (push_keeps_other_owners_rows (fun _ => 7) 9 (mkSyncPushRequest sample_batch None)
           alice sample_table resp tbl' E).
Defined.

(** X2: a successful push never removes a row: the (id, owner) keys of the
    committed table are those of the old table, in order, followed by the
    keys of the newly inserted rows, all owned by the caller. *)
Theorem push_never_deletes clock db_now data uid tbl resp tbl' :
  push_changes clock db_now data uid tbl = Ok (resp, tbl') ->
  exists l, map key tbl' = map key tbl ++ map key l
    /\ Forall (fun r => Task.user_id r = uid) l.
Proof.
  intros H. apply push_changes_ok in H as [s [Hl [_ [-> _]]]].
  exists (added s). split.
  - rewrite map_app. apply push_loop_keys in Hl as [Hk _]. now rewrite Hk.
  - apply (push_loop_owner clock db_now uid (tasks data)
              (mkSession tbl [] [] 0) s (Forall_nil _) Hl).
Qed.

Lemma push_never_deletes_witness :
  exists resp tbl',
    push_changes (fun _ => 7) 9 (mkSyncPushRequest sample_batch None) alice
      sample_table = Ok (resp, tbl')
    /\ exists l, map key tbl' = map key sample_table ++ map key l
       /\ Forall (fun r => Task.user_id r = alice) l.
Proof.
  destruct (push_changes (fun _ => 7) 9 (mkSyncPushRequest sample_batch None)
              alice sample_table) as [[resp tbl']|e] eqn:E;
    [|vm_compute in E; discriminate].
  exists resp, tbl'. split; [reflexivity|].
  exact (push_never_deletes (fun _ => 7) 9 (mkSyncPushRequest sample_batch None)
           alice sample_table resp tbl' E).
Defined.

(** X3: a push keeps ids unique: if no two rows of the table share an id,
    the same holds for the table a successful push commits. *)
Theorem push_preserves_unique_ids clock db_now data uid tbl resp tbl' :
  NoDup (map Task.id tbl) ->
  push_changes clock db_now data uid tbl = Ok (resp, tbl') ->
  NoDup (map Task.id tbl').
Proof.
  intros Hnd H. apply push_changes_ok in H as [s [Hl [Hpk [-> _]]]].
  apply push_loop_keys in Hl as [Hk _]. simpl in Hk.
  assert (Hrows : map Task.id (rows s) = map Task.id tbl)
    by (now rewrite !map_id_key, Hk).
  unfold pk_violation in Hpk. apply orb_false_iff in Hpk as [Hex Hdup].
  rewrite map_app, Hrows. apply NoDup_app; [exact Hnd|now apply has_dup_false_NoDup|].
  intros a Ha Hb. rewrite <- Hrows in Ha.
  apply in_map_iff in Ha as [y [<- Hy]]. apply in_map_iff in Hb as [x [Hx Hxin]].
  assert (Ht : existsb (fun r => existsb (fun x => N.eqb (Task.id x) (Task.id r))
                                   (rows s)) (added s) = true).
  { apply existsb_exists. exists x. split; [exact Hxin|].
    apply existsb_exists. exists y. split; [exact Hy|]. apply N.eqb_eq. congruence. }
  congruence.
Qed.

Lemma push_preserves_unique_ids_witness :
  NoDup (map Task.id sample_table)
  /\ exists resp tbl',
    push_changes (fun _ => 7) 9 (mkSyncPushRequest sample_batch None) alice
      sample_table = Ok (resp, tbl')
    /\ NoDup (map Task.id tbl').
Proof.
  assert (Hnd : NoDup (map Task.id sample_table)).
  { vm_compute. repeat constructor; simpl; intuition discriminate. }
  split; [exact Hnd|].
  destruct (push_changes (fun _ => 7) 9 (mkSyncPushRequest sample_batch None)
              alice sample_table) as [[resp tbl']|e] eqn:E;
    [|vm_compute in E; discriminate].
  exists resp, tbl'. split; [reflexivity|].
  exact (push_preserves_unique_ids (fun _ => 7) 9
           (mkSyncPushRequest sample_batch None) alice sample_table resp tbl' Hnd E).
Defined.

(** X4: on a table whose ids are unique, the per-record lookup never finds
    several rows: the loop over the batch always completes, a push fails
    exactly when its commit fails, and then with an integrity error (a
    duplicate primary key) or a data error (a value its column rejects). *)
Theorem push_fails_only_at_commit clock db_now data uid tbl :
  NoDup (map Task.id tbl) ->
  (exists s, push_loop clock db_now uid (mkSession tbl [] [] 0) (tasks data) = Ok s
     /\ (forall e, push_changes clock db_now data uid tbl = Err e
                   <-> commit tbl s = Err e))
  /\ (forall e, push_changes clock db_now data uid tbl = Err e ->
       e = IntegrityError \/ e = DataError).
Proof.
  intros Hnd.
  destruct (push_loop_total clock db_now uid (tasks data) (mkSession tbl [] [] 0) Hnd)
    as [s Hs].
  assert (Hiff : forall e, push_changes clock db_now data uid tbl = Err e
                           <-> commit tbl s = Err e).
  { intros e. unfold push_changes. rewrite Hs. simpl.
    destruct (commit tbl s); simpl; split; congruence. }
  split; [eauto|]. intros e He. apply Hiff, commit_Err in He.
  destruct He as [[-> _]|[-> _]]; auto.
Qed.

Lemma push_fails_only_at_commit_witness :
  NoDup (map Task.id sample_table)
  /\ ((exists s, push_loop (fun _ => 7) 9 alice (mkSession sample_table [] [] 0)
                   (tasks (mkSyncPushRequest sample_batch None)) = Ok s
        /\ (forall e, push_changes (fun _ => 7) 9 (mkSyncPushRequest sample_batch None)
                        alice sample_table = Err e
                      <-> commit sample_table s = Err e))
  /\ (forall e, push_changes (fun _ => 7) 9 (mkSyncPushRequest sample_batch None)
                  alice sample_table = Err e -> e = IntegrityError \/ e = DataError)).
Proof.
  assert (Hnd : NoDup (map Task.id sample_table)).
  { vm_compute. repeat constructor; simpl; intuition discriminate. }
  split; [exact Hnd|]. apply push_fails_only_at_commit. exact Hnd.
Defined.

(** X5: the conflict list of a successful push only names ids of records
    of the batch, and is no longer than the batch. *)
Theorem push_conflicts_from_batch clock db_now data uid tbl resp tbl' :
  push_changes clock db_now data uid tbl = Ok (resp, tbl') ->
  incl (conflicts resp) (map TaskSync.id (tasks data))
  /\ (List.length (conflicts resp) <= List.length (tasks data))%nat.
Proof.
  intros H. apply push_changes_ok in H as [s [Hl [_ [_ ->]]]].
  destruct (push_loop_conflicts clock db_now uid (tasks data) _ s Hl)
    as [l [Hc [Hi Hlen]]].
  simpl. simpl in Hc. rewrite Hc. auto.
Qed.

Lemma push_conflicts_from_batch_witness :
  exists resp tbl',
    push_changes (fun _ => 7) 9 (mkSyncPushRequest sample_batch None) alice
      sample_table = Ok (resp, tbl')
    /\ incl (conflicts resp) (map TaskSync.id sample_batch)
    /\ (List.length (conflicts resp) <= List.length sample_batch)%nat.
Proof.
  destruct (push_changes (fun _ => 7) 9 (mkSyncPushRequest sample_batch None)
              alice sample_table) as [[resp tbl']|e] eqn:E;
    [|vm_compute in E; discriminate].
  exists resp, tbl'. split; [reflexivity|].
  exact (push_conflicts_from_batch (fun _ => 7) 9 (mkSyncPushRequest sample_batch None)
           alice sample_table resp tbl' E).
Defined.

(** ** Push composed with push and with pull *)











(** ** Status *)

(** The dict returned by [sync_status]; [user_id] is [str(current_user.id)],
    kept here as the UUID itself. *)
Record SyncStatus := mkSyncStatus {
  status_user_id : UUID;
  total_tasks : nat;
  last_modified_at : option datetime;
  status_server_time : datetime
}.

(** [sync_status]: the count of the caller's rows with
    [is_deleted == False], and the caller's row with the greatest
    [modified_at] ([order_by(modified_at.desc()).limit(1)], then
    [scalar_one_or_none]). *)
Definition sync_status (uid : UUID) (now : datetime) (tbl : list Task.t)
  : result SyncStatus :=
  let total_tasks :=
    List.length (filter (fun r => N.eqb (Task.user_id r) uid
                                  && Bool.eqb (Task.is_deleted r) false) tbl) in
  last_task <- scalar_one_or_none
                 (firstn 1 (order_by_modified_desc
                              (filter (fun r => N.eqb (Task.user_id r) uid) tbl))) ;;
  Ok (mkSyncStatus uid total_tasks (option_map Task.modified_at last_task) now).

Lemma filter_map_length (f : TaskSync.t -> bool) (g : Task.t -> TaskSync.t) l :
  List.length (filter f (map g l)) = List.length (filter (fun x => f (g x)) l).
Proof.
  induction l as [|x l IH]; simpl; [reflexivity|].
  destruct (f (g x)); simpl; congruence.
Qed.

Lemma filter_filter_length (f g : Task.t -> bool) l :
  List.length (filter f (filter g l)) = List.length (filter (fun x => g x && f x) l).
Proof.
  induction l as [|x l IH]; simpl; [reflexivity|].
  destruct (g x); simpl; destruct (f x); simpl; congruence.
Qed.

(** X10: the status never fails, and its [total_tasks] is the number of
    non-deleted records among those a pull without cursor returns to the
    caller: tombstones are delivered by pull but not counted. *)
Theorem status_total_counts_live_pulled uid now now' tbl :
  exists st, sync_status uid now tbl = Ok st
    /\ total_tasks st
       = List.length (filter (fun t => negb (TaskSync.is_deleted t))
                       (pull_tasks (pull_changes None uid now' tbl))).
Proof.
  unfold sync_status.
  destruct (order_by_modified_desc _) as [|h l]; simpl; eexists;
    (split; [reflexivity|]); simpl;
    rewrite filter_map_length; unfold pull_rows;
    rewrite <- (filter_length_perm _ _ _ (Permutation_sym (order_by_modified_desc_perm _)));
    rewrite filter_filter_length;
    f_equal; apply filter_ext; intros r; unfold pull_where, to_task_sync; simpl;
    now destruct (N.eqb _ _), (Task.is_deleted r).
Qed.

(** X11: the status never fails, and its [last_modified_at] is [None]
    exactly when the caller owns no row (deleted or not); otherwise it is
    the [modified_at] of one of the caller's rows and no row of the caller
    was modified later. *)
Theorem status_last_modified_is_max uid now tbl :
  exists st, sync_status uid now tbl = Ok st
    /\ (last_modified_at st = None
        <-> forall r, In r tbl -> Task.user_id r <> uid)
    /\ (forall m, last_modified_at st = Some m ->
          (exists r, In r tbl /\ Task.user_id r = uid /\ Task.modified_at r = m)
          /\ forall r, In r tbl -> Task.user_id r = uid -> Task.modified_at r <= m).
Proof.
  set (own := filter (fun r => N.eqb (Task.user_id r) uid) tbl).
  assert (Hperm := order_by_modified_desc_perm own).
  assert (Hss : StronglySorted newer_first (order_by_modified_desc own)).
  { apply Sorted_StronglySorted; [|apply order_by_modified_desc_sorted].
    intros a b c Hab Hbc. unfold newer_first in *. lia. }
  assert (Hown : forall r, In r own <-> In r tbl /\ Task.user_id r = uid).
  { intros r. unfold own. rewrite filter_In. now rewrite N.eqb_eq. }
  unfold sync_status. fold own.
  destruct (order_by_modified_desc own) as [|h l] eqn:E; simpl;
    eexists; (split; [reflexivity|]); simpl.
  - split; [split; [|reflexivity]|intros m Hm; discriminate].
    intros _ r Hr Hu.
    assert (Hr' : In r []) by
      (apply (Permutation_in _ (Permutation_sym Hperm)); now apply Hown).
    destruct Hr'.
  - split; [split; [discriminate|]|].
    + intros Hno. exfalso.
      assert (Hh : In h own) by (apply (Permutation_in _ Hperm); now left).
      apply Hown in Hh as [Hh Hu]. exact (Hno h Hh Hu).
    + intros m [= <-]. split.
      * assert (Hh : In h own) by (apply (Permutation_in _ Hperm); now left).
        apply Hown in Hh as [Hh Hu]. eauto.
      * intros r Hr Hu.
        assert (Hr' : In r (h :: l))
          by (apply (Permutation_in _ (Permutation_sym Hperm)); now apply Hown).
        destruct Hr' as [<-|Hr']; [lia|].
        inversion Hss as [|? ? _ Hall]; subst.
        rewrite Forall_forall in Hall. exact (Hall r Hr').
Qed.

(** * Authentication (backend/app/services/auth_service.py, api/auth.py)

    The libraries the service calls are left abstract: [pwd_context.hash]
    and [pwd_context.verify] (bcrypt), [jwt.encode] and [jwt.decode]
    (python-jose, with the secret and algorithm of the settings; [decode]
    also checks the expiry), [str(uuid)] and the parsing of a string into a
    UUID when it is bound to [User.id].  [uuid.uuid4()] is the fresh id
    given to [create_user]; [preferences] (JSONB, never read here) is left
    out of the user row. *)

(** [class User(Base)] of backend/app/models/user.py. *)
Module User.
Record t := mk {
  id : UUID;
  email : string;
  apple_id : option string;
  tier : string;
  created_at : datetime;
  last_active_at : option datetime;
  hashed_password : option string
}.
End User.

(** Values of a JWT claims dict. *)
Inductive Claim :=
| CStr (s : string)
| CTime (t : datetime).

Definition claims := list (string * Claim).

(** [dict.get]. *)
Fixpoint dict_get (d : claims) (k : string) : option Claim :=
  match d with
  | [] => None
  | (k', v) :: d' => if String.eqb k' k then Some v else dict_get d' k
  end.

(** [dict.update({k: v})]: an existing key keeps its place, a new key is
    appended. *)
Definition dict_set (d : claims) (k : string) (v : Claim) : claims :=
  if existsb (fun kv => String.eqb (fst kv) k) d
  then map (fun kv => if String.eqb (fst kv) k then (k, v) else kv) d
  else d ++ [(k, v)].

(** [settings.access_token_expire_minutes = 60 * 24 * 7], in microseconds. *)
Definition access_token_expire : Z := 60 * 24 * 7 * 60 * 1000000.

(** [HTTPException(status_code, detail)] and the database errors. *)
Inductive AuthError :=
| HTTPException (status_code : Z) (detail : string)
| DbErr (e : DbError)
| InvalidUUID.   (** a [sub] that is not a UUID string, bound to [User.id] *)

Inductive outcome (A : Type) :=
| Done : A -> outcome A
| Raise : AuthError -> outcome A.
Arguments Done {A} _.
Arguments Raise {A} _.

Definition obind {A B} (m : outcome A) (k : A -> outcome B) : outcome B :=
  match m with
  | Done a => k a
  | Raise e => Raise e
  end.

Notation "x <<- m ;; k" := (obind m (fun x => k))
  (at level 61, m at next level, right associativity).

Definition credentials_error : AuthError :=
  HTTPException 401 "Could not validate credentials".
Definition login_error : AuthError :=
  HTTPException 401 "Incorrect email or password".

(** [class TokenResponse(BaseModel)]. *)
Record TokenResponse := mkTokenResponse {
  access_token : string;
  token_type : string;
  tr_user_id : string;
  tr_email : string;
  tr_tier : string
}.

Fixpoint has_dup_by {A} (eqb : A -> A -> bool) (l : list A) : bool :=
  match l with
  | [] => false
  | x :: l' => existsb (eqb x) l' || has_dup_by eqb l'
  end.

(** The constraints of the [users] table, checked at commit: [id] primary
    key, [email] unique, [apple_id] unique among non-NULL values. *)
Definition users_ok (db : list User.t) : bool :=
  negb (has_dup_by N.eqb (map User.id db))
  && negb (has_dup_by String.eqb (map User.email db))
  && negb (has_dup_by String.eqb
             (flat_map (fun u => match User.apple_id u with
                                 | Some a => [a] | None => [] end) db)).

(** The values written at commit, against the table [old] the request
    started from: rows [new] has in place of [old]'s rows are UPDATEs,
    which send only the columns that changed; the rows after them are
    INSERTs.  Of the written columns, [apple_id] ([String(255)]) takes any
    string of the request ([AppleSignIn.apple_id] is a plain [str]); the
    other ones cannot be rejected: [email] comes from an [EmailStr]
    (validated, at most 254 characters), [tier] is "free", the hash is the
    hasher's ASCII output and [last_active_at] a datetime. *)
Definition apple_id_ok (a : option string) : bool := opt_ok (varchar_ok 255) a.

Fixpoint users_written_ok (old new : list User.t) : bool :=
  match old, new with
  | o :: old', n :: new' =>
      (opt_str_eqb (User.apple_id o) (User.apple_id n) || apple_id_ok (User.apple_id n))
      && users_written_ok old' new'
  | [], rest => forallb (fun n => apple_id_ok (User.apple_id n)) rest
  | _ :: _, [] => true
  end.

(** [await db.commit()]: a value a column rejects raises a [DataError]
    when its statement is sent, a violated constraint an [IntegrityError]. *)
Definition users_commit (old db : list User.t) : outcome (list User.t) :=
  if users_written_ok old db then
    if users_ok db then Done db else Raise (DbErr IntegrityError)
  else Raise (DbErr DataError).

Definition user_one_or_none (res : list User.t) : outcome (option User.t) :=
  match res with
  | [] => Done None
  | [u] => Done (Some u)
  | _ => Raise (DbErr MultipleResultsFound)
  end.

(** A modified user object written back by its primary key. *)
Definition replace_user (db : list User.t) (u : User.t) : list User.t :=
  map (fun x => if N.eqb (User.id x) (User.id u) then u else x) db.

Definition with_apple_id (u : User.t) (a : string) : User.t :=
  User.mk (User.id u) (User.email u) (Some a) (User.tier u) (User.created_at u)
    (User.last_active_at u) (User.hashed_password u).

Definition with_last_active (u : User.t) (now : datetime) : User.t :=
  User.mk (User.id u) (User.email u) (User.apple_id u) (User.tier u)
    (User.created_at u) (Some now) (User.hashed_password u).

(** [create_access_token]: the dict given to [jwt.encode].  A [timedelta]
    is truthy when it is not zero. *)
Definition access_token_claims (data : claims) (expires_delta : option Z)
  (now : datetime) : claims :=
  let expire := match expires_delta with
                | Some delta => if Z.eqb delta 0 then now + access_token_expire
                                else now + delta
                | None => now + access_token_expire
                end in
  dict_set data "exp" (CTime expire).

(** [class UserRegister], [class UserLogin], [class AppleSignIn]; the
    [EmailStr] fields are taken as already validated strings. *)
Record UserRegister := mkUserRegister { reg_email : string; reg_password : string }.
Record UserLogin := mkUserLogin { login_email : string; login_password : string }.
Record AppleSignIn := mkAppleSignIn {
  apple_apple_id : string;
  apple_email : string;
  apple_full_name : option string
}.

Section Auth.

Variable hash : string -> string.                 (** [pwd_context.hash] *)
Variable verify : string -> string -> bool.       (** [pwd_context.verify] *)
Variable jwt_encode : claims -> string.           (** [jwt.encode] *)
Variable jwt_decode : string -> option claims.    (** [jwt.decode]; [None] on [JWTError] *)
Variable uuid_str : UUID -> string.               (** [str(uuid)] *)
Variable uuid_parse : string -> option UUID.      (** binding a string to [User.id] *)

Definition verify_password (plain_password hashed_password : string) : bool :=
  verify plain_password hashed_password.

Definition get_password_hash (password : string) : string := hash password.

Definition create_access_token (data : claims) (expires_delta : option Z)
  (now : datetime) : string :=
  jwt_encode (access_token_claims data expires_delta now).

Definition get_user_by_email (db : list User.t) (email : string)
  : outcome (option User.t) :=
  user_one_or_none (filter (fun u => String.eqb (User.email u) email) db).

Definition get_user_by_apple_id (db : list User.t) (apple_id : string)
  : outcome (option User.t) :=
  user_one_or_none
    (filter (fun u => match User.apple_id u with
                      | Some a => String.eqb a apple_id
                      | None => false
                      end) db).

(** [create_user]: [hashed_password=get_password_hash(password) if password
    else None] (an empty string is falsy), [tier="free"]; [id] is the
    fresh [uuid4()], [created_at] the database's [now()]. *)
Definition create_user (db : list User.t) (fresh_id : UUID) (db_now : datetime)
  (email : string) (password : option string) (apple_id : option string)
  : outcome (list User.t * User.t) :=
  let user := User.mk fresh_id email apple_id "free" db_now None
                (match password with
                 | Some p => if String.eqb p "" then None
                             else Some (get_password_hash p)
                 | None => None
                 end) in
  db' <<- users_commit db (db ++ [user]) ;;
  Done (db', user).

(** The [TokenResponse] built by the three endpoints. *)
Definition token_response (user : User.t) (now : datetime) : TokenResponse :=
  mkTokenResponse
    (create_access_token [("sub"%string, CStr (uuid_str (User.id user)))] None now)
    "bearer" (uuid_str (User.id user)) (User.email user) (User.tier user).

(** [register] (POST /register). *)
Definition register (db : list User.t) (fresh_id : UUID) (db_now now : datetime)
  (data : UserRegister) : outcome (list User.t * TokenResponse) :=
  existing_user <<- get_user_by_email db (reg_email data) ;;
  match existing_user with
  | Some _ => Raise (HTTPException 400 "Email already registered")
  | None =>
      p <<- create_user db fresh_id db_now (reg_email data)
              (Some (reg_password data)) None ;;
      let '(db', user) := p in
      Done (db', token_response user now)
  end.

(** [login] (POST /login): [not user.hashed_password] holds for [None] and
    for the empty string. *)
Definition login (db : list User.t) (now : datetime) (data : UserLogin)
  : outcome TokenResponse :=
  user <<- get_user_by_email db (login_email data) ;;
  match user with
  | None => Raise login_error
  | Some u =>
      match User.hashed_password u with
      | None => Raise login_error
      | Some h =>
          if String.eqb h "" then Raise login_error
          else if verify_password (login_password data) h
               then Done (token_response u now)
               else Raise login_error
      end
  end.

(** [apple_sign_in] (POST /apple). *)
Definition apple_sign_in (db : list User.t) (fresh_id : UUID)
  (db_now now : datetime) (data : AppleSignIn)
  : outcome (list User.t * TokenResponse) :=
  user <<- get_user_by_apple_id db (apple_apple_id data) ;;
  match user with
  | Some u => Done (db, token_response u now)
  | None =>
      user2 <<- get_user_by_email db (apple_email data) ;;
      match user2 with
      | Some u =>
          let u' := with_apple_id u (apple_apple_id data) in
          db' <<- users_commit db (replace_user db u') ;;
          Done (db', token_response u' now)
      | None =>
          p <<- create_user db fresh_id db_now (apple_email data) None
                  (Some (apple_apple_id data)) ;;
          let '(db', u) := p in
          Done (db', token_response u now)
      end
  end.

(** [get_current_user]: python-jose's [decode] itself rejects a [sub]
    that is not a string, so a non-string [sub] is a decoding error. *)
Definition get_current_user (db : list User.t) (now : datetime) (token : string)
  : outcome (list User.t * User.t) :=
  match jwt_decode token with
  | None => Raise credentials_error
  | Some payload =>
      match dict_get payload "sub" with
      | None => Raise credentials_error
      | Some (CTime _) => Raise credentials_error
      | Some (CStr user_id) =>
          match uuid_parse user_id with
          | None => Raise InvalidUUID
          | Some uid =>
              user <<- user_one_or_none (filter (fun u => N.eqb (User.id u) uid) db) ;;
              match user with
              | None => Raise (HTTPException 401 "User not found")
              | Some u =>
                  let u' := with_last_active u now in
                  db' <<- users_commit db (replace_user db u') ;;
                  Done (db', u')
              end
          end
      end
  end.

End Auth.

(** ** Lemmas on dicts and on the users table *)

Lemma dict_get_set_same d k v : dict_get (dict_set d k v) k = Some v.
Proof.
  unfold dict_set. destruct (existsb _ d) eqn:E.
  - induction d as [|[k' v'] d IH]; simpl in *; [discriminate|].
    destruct (String.eqb k' k) eqn:Ek; simpl.
    + now rewrite String.eqb_refl.
    + rewrite Ek. now apply IH.
  - induction d as [|[k' v'] d IH]; simpl in *; [now rewrite String.eqb_refl|].
    apply orb_false_iff in E as [Ek E]. rewrite Ek. now apply IH.
Qed.

Lemma dict_get_set_other d k k' v :
  k' <> k -> dict_get (dict_set d k v) k' = dict_get d k'.
Proof.
  intros Hne. unfold dict_set. destruct (existsb _ d).
  - induction d as [|[k0 v0] d IH]; simpl; [reflexivity|].
    destruct (String.eqb k0 k) eqn:Ek; simpl.
    + apply String.eqb_eq in Ek. subst k0.
      destruct (String.eqb_spec k k'); [congruence|]. exact IH.
    + now rewrite IH.
  - induction d as [|[k0 v0] d IH]; simpl.
    + destruct (String.eqb_spec k k'); [congruence|reflexivity].
    + now rewrite IH.
Qed.

Lemma has_dup_by_NoDup {A} (eqb : A -> A -> bool) l :
  (forall x y, eqb x y = true <-> x = y) ->
  has_dup_by eqb l = false <-> NoDup l.
Proof.
  intros Heq. induction l as [|x l IH]; simpl; [split; [constructor|reflexivity]|].
  rewrite orb_false_iff, IH, NoDup_cons_iff. split.
  - intros [Hx Hnd]. split; [|exact Hnd]. intros Hin.
    assert (existsb (eqb x) l = true) by
      (apply existsb_exists; exists x; split; [exact Hin|now apply Heq]).
    congruence.
  - intros [Hx Hnd]. split; [|exact Hnd]. apply not_true_iff_false.
    intros Hb. apply existsb_exists in Hb as [y [Hy Hb]].
    apply Heq in Hb. subst y. contradiction.
Qed.

Lemma NoDup_app_disjoint {A} (l1 l2 : list A) a :
  NoDup (l1 ++ l2) -> In a l1 -> In a l2 -> False.
Proof.
  induction l1 as [|x l1 IH]; simpl; intros Hnd H1 H2; [contradiction|].
  inversion Hnd as [|? ? Hx Hnd']; subst.
  destruct H1 as [<-|H1]; [|eauto].
  apply Hx. apply in_or_app. now right.
Qed.

(** When a key occurs at most once in a table, a lookup by that key finds
    at most one row, and exactly the row that carries it. *)
Lemma filter_key_unique {A B} (key : A -> list B) (p : A -> bool) b l :
  NoDup (flat_map key l) -> (forall x, p x = true <-> In b (key x)) ->
  filter p l = [] \/ exists x, filter p l = [x].
Proof.
  intros Hnd Hp. induction l as [|x l IH]; simpl in *; [now left|].
  destruct (p x) eqn:E.
  - right. exists x. f_equal.
    destruct (filter p l) as [|y l'] eqn:F; [reflexivity|exfalso].
    assert (Hy : In y (filter p l)) by (rewrite F; now left).
    apply filter_In in Hy as [Hy Hpy].
    apply (NoDup_app_disjoint (key x) (flat_map key l) b Hnd);
      [now apply Hp|]. apply in_flat_map. exists y. split; [exact Hy|now apply Hp].
  - apply IH. now apply NoDup_app_remove_l in Hnd.
Qed.

Lemma filter_key_the {A B} (key : A -> list B) (p : A -> bool) b l x :
  NoDup (flat_map key l) -> (forall y, p y = true <-> In b (key y)) ->
  In x l -> p x = true -> filter p l = [x].
Proof.
  intros Hnd Hp Hx Hpx.
  assert (Hin : In x (filter p l)) by (now apply filter_In).
  destruct (filter_key_unique key p b l Hnd Hp) as [E|[y E]]; rewrite E in *;
    [destruct Hin|]. destruct Hin as [<-|[]]. reflexivity.
Qed.

Lemma users_ok_NoDup db :
  users_ok db = true <->
  NoDup (map User.id db) /\ NoDup (map User.email db)
  /\ NoDup (flat_map (fun u => match User.apple_id u with
                               | Some a => [a] | None => [] end) db).
Proof.
  unfold users_ok. rewrite !andb_true_iff, !negb_true_iff.
  rewrite !(has_dup_by_NoDup _ _ N.eqb_eq), !(has_dup_by_NoDup _ _ String.eqb_eq).
  tauto.
Qed.

Lemma flat_map_single {A B} (f : A -> B) l : flat_map (fun x => [f x]) l = map f l.
Proof. induction l; simpl; congruence. Qed.

Lemma in_single_iff {A} (a b : A) : In b [a] <-> a = b.
Proof. simpl. tauto. Qed.

Lemma get_user_by_email_spec db e :
  users_ok db = true ->
  ((forall u, In u db -> User.email u <> e) /\ get_user_by_email db e = Done None)
  \/ exists u, In u db /\ User.email u = e /\ get_user_by_email db e = Done (Some u).
Proof.
  intros Hok. apply users_ok_NoDup in Hok as [_ [Hem _]].
  rewrite <- (flat_map_single User.email) in Hem.
  assert (Hp : forall x, String.eqb (User.email x) e = true <-> In e [User.email x])
    by (intros x; now rewrite in_single_iff, String.eqb_eq).
  unfold get_user_by_email.
  destruct (filter_key_unique _ _ e db Hem Hp) as [E|[u E]]; rewrite E.
  - left. split; [|reflexivity]. intros u Hu He.
    assert (Hin : In u (filter (fun u => String.eqb (User.email u) e) db))
      by (apply filter_In; split; [exact Hu|now apply String.eqb_eq]).
    rewrite E in Hin. destruct Hin.
  - right. assert (Hin : In u (filter (fun u => String.eqb (User.email u) e) db))
      by (rewrite E; now left).
    apply filter_In in Hin as [Hu He]. apply String.eqb_eq in He. eauto.
Qed.

Lemma filter_email_none db e :
  (forall u, In u db -> User.email u <> e) ->
  filter (fun u => String.eqb (User.email u) e) db = [].
Proof.
  intros Hn. induction db as [|u db IH]; simpl; [reflexivity|].
  destruct (String.eqb_spec (User.email u) e) as [He|_];
    [exfalso; apply (Hn u); [now left|exact He]|].
  apply IH. intros v Hv. apply Hn. now right.
Qed.

Definition apple_ids (db : list User.t) : list string :=
  flat_map (fun u => match User.apple_id u with Some a => [a] | None => [] end) db.

(** Inserting a user whose id, email and apple id are unused keeps the
    constraints of the table. *)
Lemma users_ok_snoc db nu :
  users_ok db = true ->
  (forall u, In u db -> User.id u <> User.id nu) ->
  (forall u, In u db -> User.email u <> User.email nu) ->
  (forall a, User.apple_id nu = Some a -> forall u, In u db -> User.apple_id u <> Some a) ->
  users_ok (db ++ [nu]) = true.
Proof.
  intros Hok Hid Hem Hap. apply users_ok_NoDup in Hok as [H1 [H2 H3]].
  apply users_ok_NoDup. rewrite !map_app, flat_map_app. simpl.
  split; [|split].
  - apply NoDup_app; [exact H1|repeat constructor; simpl; tauto|].
    intros a Ha [Hb|[]]. apply in_map_iff in Ha as [u [<- Hu]].
    exact (Hid u Hu (eq_sym Hb)).
  - apply NoDup_app; [exact H2|repeat constructor; simpl; tauto|].
    intros a Ha [Hb|[]]. apply in_map_iff in Ha as [u [<- Hu]].
    exact (Hem u Hu (eq_sym Hb)).
  - rewrite app_nil_r. destruct (User.apple_id nu) as [a|] eqn:Ea;
      [|now rewrite app_nil_r].
    apply NoDup_app; [exact H3|repeat constructor; simpl; tauto|].
    intros b Hb [Eab|[]]. subst b. apply in_flat_map in Hb as [u [Hu Hb]].
    destruct (User.apple_id u) as [c|] eqn:Ec; [|destruct Hb].
    destruct Hb as [Eca|[]]. subst c. exact (Hap a eq_refl u Hu Ec).
Qed.

Lemma NoDup_key_replace {B} (key : User.t -> list B) l1 l2 u u' :
  NoDup (flat_map key (l1 ++ u :: l2)) -> NoDup (key u') ->
  (forall b, In b (key u') -> forall v, In v (l1 ++ l2) -> ~ In b (key v)) ->
  NoDup (flat_map key (l1 ++ u' :: l2)).
Proof.
  intros Hnd Hu' Hdis. rewrite flat_map_app in *. simpl in *.
  apply (Permutation_NoDup (Permutation_app_swap_app _ _ _)) in Hnd.
  apply NoDup_app_remove_l in Hnd.
  apply (Permutation_NoDup (Permutation_app_swap_app (key u') _ _)).
  apply NoDup_app; [exact Hu'|exact Hnd|].
  intros b Hb Hin. apply in_app_or in Hin as [Hin|Hin];
    apply in_flat_map in Hin as [v [Hv Hbv]];
    apply (Hdis b Hb v); auto using in_or_app.
Qed.

(** Writing back a user object under its own id changes that row only. *)
Lemma replace_user_split db l1 l2 u u' :
  NoDup (map User.id db) -> db = l1 ++ u :: l2 -> User.id u' = User.id u ->
  replace_user db u' = l1 ++ u' :: l2.
Proof.
  intros Hnd -> Hid. rewrite map_app in Hnd. simpl in Hnd.
  apply NoDup_remove_2 in Hnd.
  unfold replace_user. rewrite map_app. simpl.
  rewrite Hid, N.eqb_refl. f_equal; [|f_equal];
    (etransitivity; [|apply map_id]); apply map_ext_in; intros x Hx;
    destruct (N.eqb_spec (User.id x) (User.id u)) as [E|]; auto;
    exfalso; apply Hnd; rewrite <- E; apply in_or_app;
    [left|right]; now apply in_map.
Qed.

Definition apple_key (u : User.t) : list string :=
  match User.apple_id u with Some a => [a] | None => [] end.

(** Updating one user keeps the table constraints when the id stays and
    the email and apple id are not another user's. *)
Lemma users_ok_replace db u u' :
  users_ok db = true -> In u db -> User.id u' = User.id u ->
  (forall v, In v db -> v <> u -> User.email v <> User.email u') ->
  (forall a, User.apple_id u' = Some a ->
     forall v, In v db -> v <> u -> User.apple_id v <> Some a) ->
  users_ok (replace_user db u') = true /\ In u' (replace_user db u').
Proof.
  intros Hok Hu Hid Hem Hap.
  apply users_ok_NoDup in Hok as Hnd. destruct Hnd as [H1 [H2 H3]].
  apply in_split in Hu as [l1 [l2 E]].
  rewrite (replace_user_split db l1 l2 u u' H1 E Hid).
  assert (Hne : forall v, In v (l1 ++ l2) ->
                 In v db /\ v <> u /\ User.id v <> User.id u).
  { intros v Hv. subst db. rewrite map_app in H1. simpl in H1.
    apply NoDup_remove_2 in H1.
    assert (Hi : User.id v <> User.id u)
      by (intros Ei; apply H1; rewrite <- Ei, <- map_app; now apply in_map).
    split; [|split; [intros ->; now apply Hi|exact Hi]].
    apply in_app_or in Hv as [Hv|Hv]; apply in_or_app; simpl; auto. }
  split; [|apply in_or_app; simpl; auto].
  subst db. apply users_ok_NoDup.
  rewrite <- !(flat_map_single User.id), <- !(flat_map_single User.email)
    in *.
  split; [|split].
  - apply NoDup_key_replace with (u := u); [exact H1|repeat constructor; simpl; tauto|].
    intros b [<-|[]] v Hv [Hb|[]]. destruct (Hne v Hv) as [_ [_ Hi]].
    congruence.
  - apply NoDup_key_replace with (u := u); [exact H2|repeat constructor; simpl; tauto|].
    intros b [<-|[]] v Hv [Hb|[]]. destruct (Hne v Hv) as [Hv' [Hvu _]].
    exact (Hem v Hv' Hvu Hb).
  - change (NoDup (flat_map apple_key (l1 ++ u' :: l2))).
    apply NoDup_key_replace with (u := u); [exact H3|unfold apple_key|].
    + destruct (User.apple_id u'); repeat constructor; simpl; tauto.
    + intros b Hb v Hv Hbv. unfold apple_key in *.
      destruct (User.apple_id u') as [a|] eqn:Ea; [|destruct Hb].
      destruct Hb as [<-|[]]. destruct (Hne v Hv) as [Hv' [Hvu _]].
      destruct (User.apple_id v) as [c|] eqn:Ec; [|destruct Hbv].
      destruct Hbv as [->|[]]. exact (Hap a eq_refl v Hv' Hvu Ec).
Qed.

Lemma get_user_by_apple_id_found db u a :
  users_ok db = true -> In u db -> User.apple_id u = Some a ->
  get_user_by_apple_id db a = Done (Some u).
Proof.
  intros Hok Hu Ha. apply users_ok_NoDup in Hok as [_ [_ H3]].
  unfold get_user_by_apple_id.
  erewrite (filter_key_the apple_key _ a db u H3); [reflexivity| |exact Hu|].
  - intros x. unfold apple_key. destruct (User.apple_id x) as [c|]; simpl;
      [rewrite String.eqb_eq; tauto|split; [discriminate|tauto]].
  - now rewrite Ha, String.eqb_refl.
Qed.

Lemma get_user_by_apple_id_none db a :
  (forall u, In u db -> User.apple_id u <> Some a) ->
  get_user_by_apple_id db a = Done None.
Proof.
  intros Hn. unfold get_user_by_apple_id.
  induction db as [|u db IH]; simpl; [reflexivity|].
  destruct (User.apple_id u) as [c|] eqn:Ec.
  - destruct (String.eqb_spec c a) as [->|_];
      [exfalso; exact (Hn u (or_introl eq_refl) Ec)|].
    apply IH. intros v Hv. apply Hn. now right.
  - apply IH. intros v Hv. apply Hn. now right.
Qed.

Lemma get_user_by_email_found db u e :
  users_ok db = true -> In u db -> User.email u = e ->
  get_user_by_email db e = Done (Some u).
Proof.
  intros Hok Hu He. apply users_ok_NoDup in Hok as [_ [Hem _]].
  rewrite <- (flat_map_single User.email) in Hem.
  unfold get_user_by_email.
  erewrite (filter_key_the (fun x => [User.email x]) _ e db u Hem);
    [reflexivity| |exact Hu|now apply String.eqb_eq].
  intros x. now rewrite in_single_iff, String.eqb_eq.
Qed.

Lemma filter_id_found db u :
  users_ok db = true -> In u db ->
  filter (fun x => N.eqb (User.id x) (User.id u)) db = [u].
Proof.
  intros Hok Hu. apply users_ok_NoDup in Hok as [H1 _].
  rewrite <- (flat_map_single User.id) in H1.
  apply (filter_key_the (fun x => [User.id x]) _ (User.id u) db u H1);
    [|exact Hu|apply N.eqb_refl].
  intros x. now rewrite in_single_iff, N.eqb_eq.
Qed.

(** Under the table constraints, an email picks out at most one user. *)
Lemma users_email_unique db u v :
  users_ok db = true -> In u db -> In v db -> User.email u = User.email v -> u = v.
Proof.
  intros Hok Hu Hv He. apply users_ok_NoDup in Hok as [_ [Hem _]].
  rewrite <- (flat_map_single User.email) in Hem.
  assert (Hp : forall x, String.eqb (User.email x) (User.email u) = true
                         <-> In (User.email u) [User.email x])
    by (intros x; now rewrite in_single_iff, String.eqb_eq).
  assert (F1 := filter_key_the _ _ _ db u Hem Hp Hu (String.eqb_refl _)).
  assert (F2 := filter_key_the _ _ _ db v Hem Hp Hv
                  (proj2 (String.eqb_eq _ _) (eq_sym He))).
  rewrite F1 in F2. now injection F2.
Qed.

Lemma users_apple_unique db u v a :
  users_ok db = true -> In u db -> In v db ->
  User.apple_id u = Some a -> User.apple_id v = Some a -> u = v.
Proof.
  intros Hok Hu Hv Ha Hb.
  assert (E := get_user_by_apple_id_found db u a Hok Hu Ha).
  rewrite (get_user_by_apple_id_found db v a Hok Hv Hb) in E.
  congruence.
Qed.

Lemma users_commit_Done l0 l l' :
  users_commit l0 l = Done l' -> l' = l /\ users_ok l = true.
Proof.
  unfold users_commit. destruct (users_written_ok l0 l); [|discriminate].
  destruct (users_ok l); intros H; [injection H|]; auto; discriminate.
Qed.

Lemma opt_str_eqb_refl a : opt_str_eqb a a = true.
Proof. destruct a; simpl; [apply String.eqb_refl|reflexivity]. Qed.

Lemma users_written_ok_snoc db nu :
  apple_id_ok (User.apple_id nu) = true -> users_written_ok db (db ++ [nu]) = true.
Proof.
  intros Ha. induction db as [|x db IH]; simpl; [now rewrite Ha|].
  now rewrite opt_str_eqb_refl, IH.
Qed.

Lemma users_written_ok_replace db u' :
  (forall x, In x db -> User.id x = User.id u' ->
     opt_str_eqb (User.apple_id x) (User.apple_id u') || apple_id_ok (User.apple_id u')
     = true) ->
  users_written_ok db (replace_user db u') = true.
Proof.
  induction db as [|x db IH]; simpl; intros H; [reflexivity|].
  rewrite IH by (intros y Hy; apply H; now right).
  destruct (N.eqb_spec (User.id x) (User.id u')) as [E|E].
  - now rewrite (H x (or_introl eq_refl) E).
  - now rewrite opt_str_eqb_refl.
Qed.

Lemma users_written_ok_replace_false db u' x :
  In x db -> User.id x = User.id u' ->
  opt_str_eqb (User.apple_id x) (User.apple_id u') = false ->
  apple_id_ok (User.apple_id u') = false ->
  users_written_ok db (replace_user db u') = false.
Proof.
  induction db as [|y db IH]; simpl; [contradiction|].
  intros [<-|Hx] Hid Heq Ha.
  - now rewrite Hid, N.eqb_refl, Heq, Ha.
  - rewrite (IH Hx Hid Heq Ha). apply andb_false_r.
Qed.

(** Stamping [last_active_at] writes no Apple id. *)
Lemma users_written_ok_last_active db u now :
  users_ok db = true -> In u db ->
  users_written_ok db (replace_user db (with_last_active u now)) = true.
Proof.
  intros Hok Hu. apply users_written_ok_replace. intros x Hx Hid.
  assert (Hin : In x (filter (fun y => N.eqb (User.id y) (User.id u)) db))
    by (apply filter_In; split; [exact Hx|apply N.eqb_eq; exact Hid]).
  rewrite (filter_id_found db u Hok Hu) in Hin. destruct Hin as [<-|[]].
  simpl. now rewrite opt_str_eqb_refl.
Qed.

Lemma user_one_or_none_some l u :
  user_one_or_none l = Done (Some u) -> l = [u].
Proof. destruct l as [|x [|y l]]; simpl; congruence. Qed.

Lemma replace_user_In db u u' :
  In u db -> User.id u' = User.id u -> In u' (replace_user db u').
Proof.
  intros Hu Hid. apply in_map_iff. exists u. now rewrite Hid, N.eqb_refl.
Qed.

(** Stamping [last_active_at] keeps the table constraints. *)
Lemma users_ok_with_last_active db u now :
  users_ok db = true -> In u db ->
  users_ok (replace_user db (with_last_active u now)) = true.
Proof.
  intros Hok Hu. apply (users_ok_replace db u); auto.
  - intros v Hv Hvu He. apply Hvu. now apply (users_email_unique db).
  - intros a Ha v Hv Hvu Hva. apply Hvu.
    now apply (users_apple_unique db v u a).
Qed.

Section AuthProps.
Variable hash : string -> string.
Variable verify : string -> string -> bool.
Variable jwt_encode : claims -> string.
Variable jwt_decode : string -> option claims.
Variable uuid_str : UUID -> string.
Variable uuid_parse : string -> option UUID.

(** X13: registering an email that an existing user already has is refused
    with HTTP 400 "Email already registered", before anything is written. *)
Theorem register_existing_email db fresh_id db_now now data :
  users_ok db = true ->
  (exists u, In u db /\ User.email u = reg_email data) ->
  register hash jwt_encode uuid_str db fresh_id db_now now data
  = Raise (HTTPException 400 "Email already registered").
Proof.
  intros Hok [u [Hu He]]. unfold register.
  destruct (get_user_by_email_spec db (reg_email data) Hok)
    as [[Hn _]|[v [_ [_ E]]]]; [exfalso; exact (Hn u Hu He)|].
  now rewrite E.
Qed.


(** X15: registering a new email with a non-empty password inserts one
    user (tier "free", no Apple id, the password's hash) after the existing
    rows and returns that user's token; a later login with the same email
    and password then succeeds for the same user. *)
Theorem register_then_login db fresh_id db_now now now' e p :
  users_ok db = true ->
  (forall u, In u db -> User.id u <> fresh_id) ->
  (forall u, In u db -> User.email u <> e) ->
  p <> ""%string -> hash p <> ""%string -> verify p (hash p) = true ->
  register hash jwt_encode uuid_str db fresh_id db_now now (mkUserRegister e p)
  = Done (db ++ [User.mk fresh_id e None "free" db_now None (Some (hash p))],
          token_response jwt_encode uuid_str
            (User.mk fresh_id e None "free" db_now None (Some (hash p))) now)
  /\ login verify jwt_encode uuid_str
       (db ++ [User.mk fresh_id e None "free" db_now None (Some (hash p))])
       now' (mkUserLogin e p)
     = Done (token_response jwt_encode uuid_str
               (User.mk fresh_id e None "free" db_now None (Some (hash p))) now').
Proof.
  intros Hok Hid Hem Hp Hh Hv.
  assert (Hok' : users_ok (db ++ [User.mk fresh_id e None "free" db_now None
                                    (Some (hash p))]) = true)
    by (apply users_ok_snoc; simpl; auto; discriminate).
  split.
  - unfold register, get_user_by_email. simpl.
    rewrite filter_email_none by exact Hem. simpl.
    unfold create_user, get_password_hash.
    rewrite (proj2 (String.eqb_neq p ""%string) Hp).
    unfold users_commit. rewrite users_written_ok_snoc by reflexivity.
    now rewrite Hok'.
  - unfold login, get_user_by_email. simpl.
    rewrite filter_app, filter_email_none by exact Hem. simpl.
    rewrite String.eqb_refl. simpl.
    rewrite (proj2 (String.eqb_neq (hash p) ""%string) Hh).
    unfold verify_password. now rewrite Hv.
Qed.

(** X16: registering with the empty password stores no hash ([if password]
    is false), and every later login for that email is refused with
    "Incorrect email or password", whatever password is given. *)
Theorem register_empty_password_locked db fresh_id db_now now e :
  users_ok db = true ->
  (forall u, In u db -> User.id u <> fresh_id) ->
  (forall u, In u db -> User.email u <> e) ->
  register hash jwt_encode uuid_str db fresh_id db_now now (mkUserRegister e "")
  = Done (db ++ [User.mk fresh_id e None "free" db_now None None],
          token_response jwt_encode uuid_str
            (User.mk fresh_id e None "free" db_now None None) now)
  /\ forall now' p,
       login verify jwt_encode uuid_str
         (db ++ [User.mk fresh_id e None "free" db_now None None])
         now' (mkUserLogin e p) = Raise login_error.
Proof.
  intros Hok Hid Hem.
  assert (Hok' : users_ok (db ++ [User.mk fresh_id e None "free" db_now None None])
                 = true)
    by (apply users_ok_snoc; simpl; auto; discriminate).
  split.
  - unfold register, get_user_by_email. simpl.
    rewrite filter_email_none by exact Hem. simpl.
    unfold create_user, users_commit. rewrite users_written_ok_snoc by reflexivity.
    simpl. now rewrite Hok'.
  - intros now' p. unfold login, get_user_by_email. simpl.
    rewrite filter_app, filter_email_none by exact Hem. simpl.
    now rewrite String.eqb_refl.
Qed.

(** X17: an Apple sign-in with an unknown Apple id and the email of an
    existing user links the Apple id to that user: when the Apple id fits
    the [String(255)] column, the row is rewritten with the new [apple_id]
    (overwriting any Apple id it had), no user is created, and the token is
    that user's; a longer Apple id (or one with a NUL character) fails the
    commit with a data error and links nothing. *)
Theorem apple_links_existing_email db fresh_id db_now now data u :
  users_ok db = true ->
  (forall v, In v db -> User.apple_id v <> Some (apple_apple_id data)) ->
  In u db -> User.email u = apple_email data ->
  apple_sign_in hash jwt_encode uuid_str db fresh_id db_now now data
  = if varchar_ok 255 (apple_apple_id data)
    then Done (replace_user db (with_apple_id u (apple_apple_id data)),
               token_response jwt_encode uuid_str
                 (with_apple_id u (apple_apple_id data)) now)
    else Raise (DbErr DataError).
Proof.
  intros Hok Hna Hu He. unfold apple_sign_in.
  rewrite get_user_by_apple_id_none by exact Hna. simpl.
  rewrite (get_user_by_email_found db u _ Hok Hu He). simpl.
  destruct (users_ok_replace db u (with_apple_id u (apple_apple_id data)))
    as [Hok' _]; auto.
  - intros v Hv Hvu Hve. apply Hvu. now apply (users_email_unique db).
  - intros a [= <-] v Hv _. apply Hna, Hv.
  - unfold users_commit.
    destruct (varchar_ok 255 (apple_apple_id data)) eqn:Ev.
    + rewrite users_written_ok_replace; [now rewrite Hok'|].
      intros x _ _. simpl. unfold apple_id_ok. simpl. rewrite Ev. apply orb_true_r.
    + rewrite (users_written_ok_replace_false db _ u Hu); [reflexivity..| |].
      * simpl. specialize (Hna u Hu).
        destruct (User.apple_id u) as [c|]; [|reflexivity].
        apply String.eqb_neq. congruence.
      * exact Ev.
Qed.

Lemma apple_sign_in_result db fresh_id db_now now data db' r :
  users_ok db = true ->
  apple_sign_in hash jwt_encode uuid_str db fresh_id db_now now data = Done (db', r) ->
  users_ok db' = true /\ exists u, In u db'
    /\ User.apple_id u = Some (apple_apple_id data)
    /\ r = token_response jwt_encode uuid_str u now.
Proof.
  intros Hok H. unfold apple_sign_in in H.
  destruct (get_user_by_apple_id db (apple_apple_id data)) as [[u|]|err] eqn:E1;
    simpl in H; [| |discriminate].
  - injection H as <- <-. split; [exact Hok|]. exists u.
    unfold get_user_by_apple_id in E1. apply user_one_or_none_some in E1.
    assert (Hin : In u (filter (fun u => match User.apple_id u with
                                         | Some a => String.eqb a (apple_apple_id data)
                                         | None => false end) db))
      by (rewrite E1; now left).
    apply filter_In in Hin as [Hu Ha].
    destruct (User.apple_id u) as [c|]; [|discriminate].
    apply String.eqb_eq in Ha. subst c. auto.
  - destruct (get_user_by_email db (apple_email data)) as [[u|]|err] eqn:E2;
      simpl in H; [| |discriminate].
    + destruct (users_commit _) as [l|err] eqn:E3; simpl in H; [|discriminate].
      injection H as <- <-. apply users_commit_Done in E3 as [-> Hok'].
      split; [exact Hok'|]. exists (with_apple_id u (apple_apple_id data)).
      split; [|auto]. apply (replace_user_In db u); [|reflexivity].
      unfold get_user_by_email in E2. apply user_one_or_none_some in E2.
      assert (Hin : In u (filter (fun u => String.eqb (User.email u)
                                             (apple_email data)) db))
        by (rewrite E2; now left).
      now apply filter_In in Hin as [Hu _].
    + unfold create_user in H.
      destruct (users_commit _) as [l|err] eqn:E3; simpl in H; [|discriminate].
      injection H as <- <-. apply users_commit_Done in E3 as [-> Hok'].
      split; [exact Hok'|]. eexists. split; [apply in_or_app; right; now left|].
      auto.
Qed.

(** X18: once an Apple sign-in has succeeded, signing in again with the
    same Apple id (under any email) changes nothing in the table and
    returns a token for the same user. *)
Theorem apple_sign_in_again db fresh_id fresh_id' db_now db_now' now now'
    data data' db' r :
  users_ok db = true ->
  apple_apple_id data' = apple_apple_id data ->
  apple_sign_in hash jwt_encode uuid_str db fresh_id db_now now data = Done (db', r) ->
  exists r', apple_sign_in hash jwt_encode uuid_str db' fresh_id' db_now' now' data'
             = Done (db', r')
    /\ tr_user_id r' = tr_user_id r /\ tr_email r' = tr_email r.
Proof.
  intros Hok Ha H.
  destruct (apple_sign_in_result _ _ _ _ _ _ _ Hok H) as [Hok' [u [Hu [Hua ->]]]].
  exists (token_response jwt_encode uuid_str u now'). split; [|auto].
  unfold apple_sign_in. rewrite Ha.
  now rewrite (get_user_by_apple_id_found db' u _ Hok' Hu Hua).
Qed.

Lemma current_user_found db now token payload s u :
  users_ok db = true -> jwt_decode token = Some payload ->
  dict_get payload "sub" = Some (CStr s) -> uuid_parse s = Some (User.id u) ->
  In u db ->
  get_current_user jwt_decode uuid_parse db now token
  = Done (replace_user db (with_last_active u now), with_last_active u now).
Proof.
  intros Hok Hd Hs Hp Hu. unfold get_current_user.
  rewrite Hd, Hs, Hp, (filter_id_found db u Hok Hu). simpl.
  unfold users_commit.
  now rewrite users_written_ok_last_active, users_ok_with_last_active.
Qed.

(** X19: on a consistent users table [get_current_user] never fails with a
    database error: it either succeeds or raises 401 "Could not validate
    credentials", the invalid-UUID error, or 401 "User not found". *)
Theorem get_current_user_errors db now token err :
  users_ok db = true ->
  get_current_user jwt_decode uuid_parse db now token = Raise err ->
  err = credentials_error \/ err = InvalidUUID
  \/ err = HTTPException 401 "User not found".
Proof.
  intros Hok H. unfold get_current_user in H.
  destruct (jwt_decode token) as [payload|]; [|injection H; auto].
  destruct (dict_get payload "sub") as [[s|t]|]; try (injection H; auto; fail).
  destruct (uuid_parse s) as [uid|]; [|injection H; auto].
  apply users_ok_NoDup in Hok as Hnd. destruct Hnd as [H1 _].
  rewrite <- (flat_map_single User.id) in H1.
  destruct (filter_key_unique (fun x => [User.id x])
              (fun u => N.eqb (User.id u) uid) uid db H1) as [E|[u E]];
    [intros x; now rewrite in_single_iff, N.eqb_eq| |]; rewrite E in H; simpl in H.
  - injection H; auto.
  - assert (Hin : In u (filter (fun u => N.eqb (User.id u) uid) db))
      by (rewrite E; now left).
    apply filter_In in Hin as [Hu _].
    unfold users_commit in H.
    rewrite users_written_ok_last_active, users_ok_with_last_active in H
      by assumption.
    discriminate.
Qed.

(** X20: on a consistent users table [get_current_user] succeeds exactly
    when the token decodes to claims whose "sub" is a string parsing to the
    id of a stored user; it returns that user with [last_active_at] set to
    now, written back in place of the old row. *)
Theorem get_current_user_success db now token db' u' :
  users_ok db = true ->
  get_current_user jwt_decode uuid_parse db now token = Done (db', u') <->
  exists payload s u, jwt_decode token = Some payload
    /\ dict_get payload "sub" = Some (CStr s) /\ uuid_parse s = Some (User.id u)
    /\ In u db /\ u' = with_last_active u now
    /\ db' = replace_user db (with_last_active u now).
Proof.
  intros Hok. split.
  - intros H. unfold get_current_user in H.
    destruct (jwt_decode token) as [payload|] eqn:Hd; [|discriminate].
    destruct (dict_get payload "sub") as [[s|t]|] eqn:Hs; try discriminate.
    destruct (uuid_parse s) as [uid|] eqn:Hp; [|discriminate].
    destruct (user_one_or_none _) as [[u|]|err] eqn:E; simpl in H;
      try discriminate.
    destruct (users_commit _) as [l|err] eqn:E2; simpl in H; [|discriminate].
    injection H as <- <-. apply users_commit_Done in E2 as [-> _].
    apply user_one_or_none_some in E.
    assert (Hin : In u (filter (fun u => N.eqb (User.id u) uid) db))
      by (rewrite E; now left).
    apply filter_In in Hin as [Hu Hid]. apply N.eqb_eq in Hid. subst uid.
    exists payload, s, u. auto 7.
  - intros [payload [s [u [Hd [Hs [Hp [Hu [-> ->]]]]]]]].
    exact (current_user_found db now token payload s u Hok Hd Hs Hp Hu).
Qed.

(** X21: a token returned by the auth endpoints authenticates its user:
    presented while it still decodes to the claims it was made from, it
    makes [get_current_user] return that user, stamped with the time of
    the request. *)
Theorem token_authenticates db u now now' :
  users_ok db = true -> In u db ->
  jwt_decode (access_token (token_response jwt_encode uuid_str u now))
  = Some (access_token_claims [("sub"%string, CStr (uuid_str (User.id u)))] None now) ->
  uuid_parse (uuid_str (User.id u)) = Some (User.id u) ->
  get_current_user jwt_decode uuid_parse db now'
    (access_token (token_response jwt_encode uuid_str u now))
  = Done (replace_user db (with_last_active u now'), with_last_active u now').
Proof.
  intros Hok Hu Hd Hp.
  apply (current_user_found db now' _ _ (uuid_str (User.id u)) u Hok Hd);
    [|exact Hp|exact Hu].
  unfold access_token_claims. rewrite dict_get_set_other by discriminate.
  reflexivity.
Qed.

End AuthProps.

(** ** Concrete instances for the auth properties *)

Definition sample_hash (p : string) : string := String.append "h$"%string p.
Definition sample_verify (p h : string) : bool := String.eqb h (sample_hash p).
Definition sample_jwt_encode (c : claims) : string := "token"%string.
Definition sample_uuid_str (i : UUID) : string :=
  if N.eqb i alice then "alice-uuid"%string else if N.eqb i bob then "bob-uuid"%string else "other"%string.
Definition sample_uuid_parse (s : string) : option UUID :=
  if String.eqb s "alice-uuid"%string then Some alice
  else if String.eqb s "bob-uuid"%string then Some bob else None.
Definition sample_jwt_decode (t : string) : option claims :=
  if String.eqb t "token"%string
  then Some (access_token_claims [("sub"%string, CStr "alice-uuid"%string)] None 100)
  else None.

Definition user_alice : User.t :=
  User.mk alice "alice@example.com"%string None "free"%string 0 None (Some (sample_hash "pw"%string)).
Definition user_bob : User.t :=
  User.mk bob "bob@example.com"%string (Some "apple-bob"%string) "pro"%string 0 None None.
Definition sample_users : list User.t := [user_alice; user_bob].

Ltac sample_users_all :=
  apply Forall_forall; repeat constructor; vm_compute; discriminate.

Lemma register_existing_email_witness :
  register sample_hash sample_jwt_encode sample_uuid_str sample_users 30%N 7 100
    (mkUserRegister "bob@example.com"%string "x"%string)
  = Raise (HTTPException 400 "Email already registered"%string).
Proof.
  apply register_existing_email; [vm_compute; reflexivity|].
  exists user_bob. split; [right; left; reflexivity|reflexivity].
Defined.


Lemma register_then_login_witness :
  login sample_verify sample_jwt_encode sample_uuid_str
    (sample_users ++ [User.mk 30%N "carol@example.com"%string None "free"%string 7 None
                        (Some (sample_hash "secret"%string))])
    200 (mkUserLogin "carol@example.com"%string "secret"%string)
  = Done (token_response sample_jwt_encode sample_uuid_str
            (User.mk 30%N "carol@example.com"%string None "free"%string 7 None
               (Some (sample_hash "secret"%string))) 200).
Proof.
  apply (register_then_login sample_hash sample_verify sample_jwt_encode
           sample_uuid_str sample_users 30%N 7 100 200); try reflexivity;
    try discriminate; sample_users_all.
Defined.

Lemma register_empty_password_locked_witness :
  login sample_verify sample_jwt_encode sample_uuid_str
    (sample_users ++ [User.mk 30%N "carol@example.com"%string None "free"%string 7 None None])
    200 (mkUserLogin "carol@example.com"%string ""%string)
  = Raise login_error.
Proof.
  apply (register_empty_password_locked sample_hash sample_verify
           sample_jwt_encode sample_uuid_str sample_users 30%N 7 100
           "carol@example.com"%string); try reflexivity; sample_users_all.
Defined.

(** An Apple id of 256 characters. *)
Definition long_apple_id : string :=
  fold_right String.append EmptyString (repeat "a"%string 256).

Lemma apple_links_existing_email_witness :
  apple_sign_in sample_hash sample_jwt_encode sample_uuid_str sample_users 30%N 7 100
    (mkAppleSignIn "apple-alice"%string "alice@example.com"%string None)
  = Done (replace_user sample_users (with_apple_id user_alice "apple-alice"%string),
          token_response sample_jwt_encode sample_uuid_str
            (with_apple_id user_alice "apple-alice"%string) 100)
  /\ apple_sign_in sample_hash sample_jwt_encode sample_uuid_str sample_users 30%N 7 100
       (mkAppleSignIn long_apple_id "alice@example.com"%string None)
     = Raise (DbErr DataError).
Proof.
  split.
  - rewrite (apple_links_existing_email sample_hash sample_jwt_encode sample_uuid_str
               sample_users 30%N 7 100
               (mkAppleSignIn "apple-alice"%string "alice@example.com"%string None)
               user_alice);
      [reflexivity|reflexivity|sample_users_all|now left|reflexivity].
  - rewrite (apple_links_existing_email sample_hash sample_jwt_encode sample_uuid_str
               sample_users 30%N 7 100
               (mkAppleSignIn long_apple_id "alice@example.com"%string None)
               user_alice);
      [vm_compute; reflexivity|reflexivity|sample_users_all|now left|reflexivity].
Defined.

Definition user_carol_apple : User.t :=
  User.mk 30%N "carol@example.com"%string (Some "apple-carol"%string) "free"%string
    7 None None.

Lemma apple_sign_in_again_witness :
  exists r', apple_sign_in sample_hash sample_jwt_encode sample_uuid_str
               (sample_users ++ [user_carol_apple])
               31%N 8 200 (mkAppleSignIn "apple-carol"%string "other@example.com"%string None)
             = Done (sample_users ++ [user_carol_apple], r')
    /\ tr_user_id r' = tr_user_id (token_response sample_jwt_encode sample_uuid_str
                                    user_carol_apple 100)
    /\ tr_email r' = tr_email (token_response sample_jwt_encode sample_uuid_str
                                user_carol_apple 100).
Proof.
  exact (apple_sign_in_again sample_hash sample_jwt_encode sample_uuid_str
           sample_users 30%N 31%N 7 8 100 200
           (mkAppleSignIn "apple-carol"%string "carol@example.com"%string None)
           (mkAppleSignIn "apple-carol"%string "other@example.com"%string None)
           (sample_users ++ [user_carol_apple])
           (token_response sample_jwt_encode sample_uuid_str user_carol_apple 100)
           eq_refl eq_refl eq_refl).
Defined.

Lemma get_current_user_errors_witness :
  exists err, get_current_user sample_jwt_decode sample_uuid_parse
                [user_bob] 100 "token"%string = Raise err
    /\ (err = credentials_error \/ err = InvalidUUID
        \/ err = HTTPException 401 "User not found"%string).
Proof.
  destruct (get_current_user sample_jwt_decode sample_uuid_parse [user_bob] 100
              "token"%string) as [p|err] eqn:E; [vm_compute in E; discriminate|].
  exists err. split; [reflexivity|].
  exact (get_current_user_errors sample_jwt_decode sample_uuid_parse
           [user_bob] 100 "token"%string err eq_refl E).
Defined.

Lemma get_current_user_success_witness :
  get_current_user sample_jwt_decode sample_uuid_parse sample_users 150 "token"%string
  = Done (replace_user sample_users (with_last_active user_alice 150),
          with_last_active user_alice 150).
Proof.
  apply (proj2 (get_current_user_success sample_jwt_decode sample_uuid_parse
                  sample_users 150 "token"%string _ _ eq_refl)).
  exists (access_token_claims [("sub"%string, CStr "alice-uuid"%string)] None 100),
    "alice-uuid"%string, user_alice.
  repeat split; now left.
Defined.

Lemma token_authenticates_witness :
  get_current_user sample_jwt_decode sample_uuid_parse sample_users 150
    (access_token (token_response sample_jwt_encode sample_uuid_str user_alice 100))
  = Done (replace_user sample_users (with_last_active user_alice 150),
          with_last_active user_alice 150).
Proof.
  apply token_authenticates; [reflexivity|now left|reflexivity|reflexivity].
Defined.
